(** * game_db: a two-player session store

    A shallow embedding of [game_db.py]: the two SQLite tables, the SQL
    statements the module issues, the connection context manager with its
    commit-on-success / drop-on-exception behaviour, and the four public
    functions [join_session], [get_state], [save_move] and [get_results]. *)

From Stdlib Require Import List String ZArith Lia Bool.
Import ListNotations.
Local Open Scope string_scope.
Local Open Scope list_scope.
Local Open Scope Z_scope.

(** ** Tables

    Both tables are rowid tables and the module never deletes a row, so a
    table is the list of its rows in ROWID order and INSERT appends. *)

(** A row of [sessions (id TEXT PRIMARY KEY, player_count INTEGER ...)]. *)
Record SessionRow : Type := mkSession {
  id : string;
  player_count : Z
}.

(** A row of [moves (session_id, player_id, choice)]. *)
Record MoveRow : Type := mkMove {
  session_id : string;
  player_id : string;
  choice : string
}.

(** The database file. *)
Record Store : Type := mkStore {
  sessions : list SessionRow;
  moves : list MoveRow
}.

(** Python exceptions the module lets escape: [ValueError] raised by the
    module itself and [sqlite3.IntegrityError] raised by a statement. *)
Inductive Exn : Type :=
| ValueError (msg : string)
| IntegrityError (msg : string).

(** ** Schema constraints of [init_db] *)

(** [CHECK(player_count BETWEEN 0 AND 2)] *)
Definition check_player_count (n : Z) : bool := (0 <=? n) && (n <=? 2).

(** Is there a [sessions] row with this primary key? *)
Definition session_exists (sid : string) (s : Store) : bool :=
  existsb (fun r => String.eqb (id r) sid) (sessions s).

(** Is there a [moves] row with this [(session_id, player_id)]? *)
Definition move_exists (sid pid : string) (s : Store) : bool :=
  existsb (fun m => String.eqb (session_id m) sid && String.eqb (player_id m) pid)
          (moves s).

(** [CREATE TABLE IF NOT EXISTS ...]: a missing file becomes two empty
    tables, an existing one is left as it is. *)
Definition empty_db : Store := mkStore [] [].

Definition init_db (file : option Store) : Store :=
  match file with
  | Some s => s
  | None => empty_db
  end.

(** ** The SQL statements *)

(** [SELECT id FROM sessions WHERE player_count = 1 LIMIT 1]
    (a table scan: the first such row in ROWID order). *)
Definition select_open_session (s : Store) : option string :=
  option_map id (find (fun r => player_count r =? 1) (sessions s)).

(** [UPDATE sessions SET player_count = player_count + 1 WHERE id = ?].
    The rows the WHERE clause selects are rewritten; the CHECK constraint
    is tested on each row written, and a violation aborts the statement. *)
Definition bump (sid : string) (r : SessionRow) : SessionRow :=
  if String.eqb (id r) sid then mkSession (id r) (player_count r + 1) else r.

Definition written_rows (sid : string) (s : Store) : list SessionRow :=
  map (bump sid) (filter (fun r => String.eqb (id r) sid) (sessions s)).

Definition update_player_count (sid : string) (s : Store) : Exn + Store :=
  if forallb (fun r => check_player_count (player_count r)) (written_rows sid s)
  then inr (mkStore (map (bump sid) (sessions s)) (moves s))
  else inl (IntegrityError "CHECK constraint failed: player_count BETWEEN 0 AND 2").

(** [INSERT INTO sessions (id, player_count) VALUES (?, 1)] *)
Definition insert_session (sid : string) (s : Store) : Exn + Store :=
  if session_exists sid s
  then inl (IntegrityError "UNIQUE constraint failed: sessions.id")
  else if check_player_count 1
  then inr (mkStore (sessions s ++ [mkSession sid 1]) (moves s))
  else inl (IntegrityError "CHECK constraint failed: player_count BETWEEN 0 AND 2").

(** [SELECT player_count FROM sessions WHERE id = ?], then [fetchone()]. *)
Definition select_player_count (sid : string) (s : Store) : option Z :=
  option_map player_count (find (fun r => String.eqb (id r) sid) (sessions s)).

(** The rows of [moves] with [session_id = ?], in ROWID order. *)
Definition moves_of (sid : string) (s : Store) : list MoveRow :=
  filter (fun m => String.eqb (session_id m) sid) (moves s).

(** [SELECT COUNT( * ) FROM moves WHERE session_id = ?] *)
Definition count_moves (sid : string) (s : Store) : Z :=
  Z.of_nat (List.length (moves_of sid s)).

(** [INSERT INTO moves (session_id, player_id, choice) VALUES (?, ?, ?)]
    under [UNIQUE (session_id, player_id)] and the foreign key on
    [sessions(id)] (PRAGMA foreign_keys = ON). *)
Definition insert_move (sid pid ch : string) (s : Store) : Exn + Store :=
  if move_exists sid pid s
  then inl (IntegrityError "UNIQUE constraint failed: moves.session_id, moves.player_id")
  else if session_exists sid s
  then inr (mkStore (sessions s) (moves s ++ [mkMove sid pid ch]))
  else inl (IntegrityError "FOREIGN KEY constraint failed").

(** [SELECT player_id, choice FROM moves WHERE session_id = ? ORDER BY ROWID] *)
Definition select_moves (sid : string) (s : Store) : list (string * string) :=
  map (fun m => (player_id m, choice m)) (moves_of sid s).

(** ** Connections and cursors

    A connection sees the file and, once it has written, its own
    uncommitted copy. A cursor action may raise; it threads the
    connection. *)
Record Conn : Type := mkConn {
  db_file : Store;
  txn : option Store
}.

Definition view (c : Conn) : Store :=
  match txn c with
  | Some w => w
  | None => db_file c
  end.

Definition Cur (A : Type) : Type := Conn -> (Exn + A) * Conn.

Definition ret {A : Type} (a : A) : Cur A := fun c => (inr a, c).

Definition raise {A : Type} (e : Exn) : Cur A := fun c => (inl e, c).

Definition bind {A B : Type} (m : Cur A) (k : A -> Cur B) : Cur B :=
  fun c =>
    match m c with
    | (inr a, c') => k a c'
    | (inl e, c') => (inl e, c')
    end.

Notation "x <- m ;; k" := (bind m (fun x => k))
  (at level 61, m at next level, right associativity).
Notation "m ;;; k" := (bind m (fun _ => k))
  (at level 61, right associativity).

(** [cur.execute(SELECT ...)] followed by a fetch. *)
Definition query {A : Type} (q : Store -> A) : Cur A :=
  fun c => (inr (q (view c)), c).

(** [cur.execute] of an INSERT or UPDATE: the sqlite3 module opens a
    transaction first; a statement that fails writes nothing. *)
Definition execute (stmt : Store -> Exn + Store) : Cur unit :=
  fun c =>
    match stmt (view c) with
    | inr w => (inr tt, mkConn (db_file c) (Some w))
    | inl e => (inl e, mkConn (db_file c) (Some (view c)))
    end.

(** [try: m  except sqlite3.IntegrityError: h] *)
Definition except_integrity {A : Type} (m h : Cur A) : Cur A :=
  fun c =>
    match m c with
    | (inl (IntegrityError _), c') => h c'
    | r => r
    end.

(** [with _get_conn() as conn: body]: commit when the body returns,
    close without committing when it raises. *)
Definition _get_conn {A : Type} (body : Cur A) (file : Store)
  : (Exn + A) * Store :=
  match body (mkConn file None) with
  | (inr a, c) => (inr a, view c)
  | (inl e, c) => (inl e, db_file c)
  end.

(** A call, from inside a [with] block, of a function that opens a
    connection of its own on the same file. *)
Definition call {A : Type} (f : Store -> (Exn + A) * Store) : Cur A :=
  fun c =>
    let (r, file) := f (db_file c) in (r, mkConn file (txn c)).

(** ** Public API *)

(** [join_session()]. [uuid1] and [uuid2] are what the first and the
    second [uuid.uuid4()] of the call produce; the second is drawn only
    when a session is created. *)
Definition join_session (uuid1 uuid2 : string)
  : Store -> (Exn + (string * string)) * Store :=
  _get_conn
    (row <- query select_open_session ;;
     let player := uuid1 in
     match row with
     | Some sid =>
         execute (update_player_count sid) ;;;
         ret (sid, player)
     | None =>
         let sid := uuid2 in
         execute (insert_session sid) ;;;
         ret (sid, player)
     end).

(** The three phases, as the strings stored under ["phase"]. *)
Definition waiting_for_opponent : string := "waiting_for_opponent".
Definition waiting_for_moves : string := "waiting_for_moves".
Definition finished : string := "finished".

(** The dictionary [get_state] returns. *)
Record State : Type := mkState {
  st_players : Z;
  st_moves : Z;
  st_phase : string
}.

(** The [if / elif / else] that decides the phase. *)
Definition decide_phase (players n_moves : Z) : string :=
  if players <? 2 then waiting_for_opponent
  else if n_moves <? players then waiting_for_moves
  else finished.

Definition unknown_session (sid : string) : Exn :=
  ValueError (String.append "Unknown session_id: " sid).

Definition get_state (sid : string) (file : Store) : (Exn + State) * Store :=
  match
    _get_conn
      (row <- query (select_player_count sid) ;;
       match row with
       | None => raise (unknown_session sid)
       | Some players =>
           n <- query (count_moves sid) ;;
           ret (players, n)
       end) file
  with
  | (inr (players, n), file') =>
      (inr (mkState players n (decide_phase players n)), file')
  | (inl e, file') => (inl e, file')
  end.

Definition not_paired : Exn :=
  ValueError "Cannot submit moves until two players have joined.".
Definition already_finished : Exn :=
  ValueError "Session already finished; no further moves accepted.".
Definition duplicate_move : Exn :=
  ValueError "Duplicate move or invalid session.".

Definition save_move (sid pid ch : string) : Store -> (Exn + unit) * Store :=
  _get_conn
    (state <- call (get_state sid) ;;
     if String.eqb (st_phase state) waiting_for_opponent then raise not_paired
     else if String.eqb (st_phase state) finished then raise already_finished
     else except_integrity (execute (insert_move sid pid ch))
                           (raise duplicate_move)).

(** One element of the list [get_results] returns. *)
Record Result : Type := mkResult {
  player : string;
  res_choice : string
}.

Definition get_results (sid : string) : Store -> (Exn + list Result) * Store :=
  _get_conn
    (rows <- query (select_moves sid) ;;
     ret (map (fun pc => mkResult (fst pc) (snd pc)) rows)).

(** * Well-formed stores

    What the schema of [init_db] guarantees of any database file: the
    primary key of [sessions], its CHECK constraint, the UNIQUE constraint
    of [moves] and its foreign key. *)

Definition move_key (m : MoveRow) : string * string :=
  (session_id m, player_id m).

Record schema_ok (s : Store) : Prop := mkSchemaOk {
  pk_sessions : NoDup (map id (sessions s));
  ck_sessions :
    Forall (fun r => check_player_count (player_count r) = true) (sessions s);
  uq_moves : NoDup (map move_key (moves s));
  fk_moves : Forall (fun m => session_exists (session_id m) s = true) (moves s)
}.

Ltac solve_schema :=
  constructor; simpl;
  repeat (constructor; simpl);
  intuition (try discriminate; try congruence).

(** The phase [get_state] reports for a session, if it reports one. *)
Definition phase_of (sid : string) (s : Store) : option string :=
  match fst (get_state sid s) with
  | inr st => Some (st_phase st)
  | inl _ => None
  end.

(** The phase as the specification words it: below two players the
    session waits for an opponent; with exactly two players and fewer
    moves than players it waits for moves; otherwise it is finished. *)
Definition spec_phase (participant_count move_count : Z) : string :=
  if participant_count <? 2 then waiting_for_opponent
  else if (participant_count =? 2) && (move_count <? participant_count)
  then waiting_for_moves
  else finished.

(** The number of distinct [player_id]s among the moves of a session. *)
Definition distinct_players (sid : string) (s : Store) : Z :=
  Z.of_nat (List.length (nodup string_dec (map player_id (moves_of sid s)))).

(** * Sequences of calls

    The states the module can bring a database to: those reached from the
    empty database of [init_db] by calls of the four public functions, with
    any arguments and any identifiers drawn. *)

Inductive Call : Type :=
| Join (uuid1 uuid2 : string)
| GetState (sid : string)
| SaveMove (sid pid ch : string)
| GetResults (sid : string).

Definition step (c : Call) (s : Store) : Store :=
  match c with
  | Join uuid1 uuid2 => snd (join_session uuid1 uuid2 s)
  | GetState sid => snd (get_state sid s)
  | SaveMove sid pid ch => snd (save_move sid pid ch s)
  | GetResults sid => snd (get_results sid s)
  end.

Definition run (cs : list Call) (s : Store) : Store :=
  fold_left (fun s c => step c s) cs s.

(** The [(session_id, player_id)] pairs the [join_session] calls of a
    sequence returned. *)
Fixpoint issued (cs : list Call) (s : Store) : list (string * string) :=
  match cs with
  | [] => []
  | c :: cs' =>
      match c with
      | Join uuid1 uuid2 =>
          match fst (join_session uuid1 uuid2 s) with
          | inr p => [p]
          | inl _ => []
          end
      | _ => []
      end ++ issued cs' (step c s)
  end.

(** The moves for [sid] that the [save_move] calls of a sequence
    accepted, in the order of the calls. *)
Definition accepted (sid : string) (c : Call) (s : Store) : list Result :=
  match c with
  | SaveMove sid' pid ch =>
      match fst (save_move sid' pid ch s) with
      | inr _ => if String.eqb sid' sid then [mkResult pid ch] else []
      | inl _ => []
      end
  | _ => []
  end.

Fixpoint submitted (sid : string) (cs : list Call) (s : Store) : list Result :=
  match cs with
  | [] => []
  | c :: cs' => accepted sid c s ++ submitted sid cs' (step c s)
  end.

(** A call leaves the database alone or performs one of three writes. *)
Inductive Write (s : Store) : Call -> Store -> Prop :=
| WriteNone c : Write s c s
| WriteBump uuid1 uuid2 sid :
    select_open_session s = Some sid ->
    forallb (fun r => check_player_count (player_count r))
            (written_rows sid s) = true ->
    Write s (Join uuid1 uuid2)
          (mkStore (map (bump sid) (sessions s)) (moves s))
| WriteSession uuid1 uuid2 :
    select_open_session s = None ->
    session_exists uuid2 s = false ->
    Write s (Join uuid1 uuid2)
          (mkStore (sessions s ++ [mkSession uuid2 1]) (moves s))
| WriteMove sid pid ch p :
    select_player_count sid s = Some p ->
    2 <= p -> count_moves sid s < p ->
    move_exists sid pid s = false ->
    fst (save_move sid pid ch s) = inr tt ->
    Write s (SaveMove sid pid ch)
          (mkStore (sessions s) (moves s ++ [mkMove sid pid ch])).

(** ** The invariant of reachable databases *)

Record Inv (s : Store) : Prop := mkInv {
  inv_pk : NoDup (map id (sessions s));
  inv_count :
    Forall (fun r => player_count r = 1 \/ player_count r = 2) (sessions s);
  inv_uq : NoDup (map move_key (moves s));
  inv_moves :
    forall sid,
      moves_of sid s = [] \/
      exists p, select_player_count sid s = Some p /\ 2 <= p /\
                count_moves sid s <= p
}.

(** ** Concurrent joins

    Several callers inside [join_session] at once, each on a connection
    of its own. The sqlite3 module opens no transaction for a SELECT, so a
    call has two steps that other calls can come between: its SELECT, and
    its UPDATE or INSERT together with the commit that ends the [with]
    block. Each step runs against the file as it is at that moment. *)

Inductive Thread : Type :=
| Ready (uuid1 uuid2 : string)
| Selected (uuid1 uuid2 : string) (row : option string)
| Returned (sid player : string)
| Raised (e : Exn).

Definition thread_step (t : Thread) (file : Store) : Thread * Store :=
  match t with
  | Ready uuid1 uuid2 =>
      (Selected uuid1 uuid2 (select_open_session file), file)
  | Selected uuid1 uuid2 (Some sid) =>
      match update_player_count sid file with
      | inr w => (Returned sid uuid1, w)
      | inl e => (Raised e, file)
      end
  | Selected uuid1 uuid2 None =>
      match insert_session uuid2 file with
      | inr w => (Returned uuid2 uuid1, w)
      | inl e => (Raised e, file)
      end
  | Returned _ _ | Raised _ => (t, file)
  end.

(** The scheduler lets the [i]-th caller take its next step. *)
Fixpoint step_at (i : nat) (ts : list Thread) (file : Store) {struct ts}
  : list Thread * Store :=
  match ts with
  | [] => ([], file)
  | t :: rest =>
      match i with
      | O => let (t', file') := thread_step t file in (t' :: rest, file')
      | S j => let (rest', file') := step_at j rest file in (t :: rest', file')
      end
  end.

Fixpoint run_sched (sched : list nat) (ts : list Thread) (file : Store)
  : list Thread * Store :=
  match sched with
  | [] => (ts, file)
  | i :: rest =>
      let (ts', file') := step_at i ts file in run_sched rest ts' file'
  end.







(** ** Sample databases and call sequences *)

(** One session, waiting for its second player. *)
Definition one_waiting : Store := mkStore [mkSession "s1" 1] [].

(** One paired session in which one player has moved. *)
Definition one_move_in : Store :=
  mkStore [mkSession "s1" 2] [mkMove "s1" "p1" "rock"].

(** Two paired sessions: one move in the first, both moves in the second. *)
Definition two_sessions : Store :=
  mkStore [mkSession "s1" 2; mkSession "s2" 2]
          [mkMove "s1" "p1" "rock"; mkMove "s2" "p3" "paper";
           mkMove "s2" "p4" "rock"].

(** A file that breaks the foreign key: a move whose session is gone. *)
Definition orphan_move : Store := mkStore [] [mkMove "ghost" "p1" "rock"].

(** A session row left at the column default 0 beside a waiting one. *)
Definition zero_and_one : Store :=
  mkStore [mkSession "s0" 0; mkSession "s1" 1] [].

(** Two players join, then a third party who never joined submits a
    move under a name of its own choosing. *)
Definition gatecrash : list Call :=
  [Join "p1" "s1"; Join "p2" "s2"; SaveMove "s1" "mallory" "rock"].

(** ** Notions for the properties of whole runs *)

(** The sessions still waiting for a second player. *)
Definition open_rows (s : Store) : list SessionRow :=
  filter (fun r => player_count r =? 1) (sessions s).

(** What a run of joins is expected to leave in [sessions], given the
    [(uuid1, uuid2)] each call draws: one full session per two joins, under
    the session id drawn by the first of the two, and a waiting one for a
    last unpaired join. *)
Fixpoint paired (js : list (string * string)) : list SessionRow :=
  match js with
  | [] => []
  | (_, sid) :: tl =>
      match tl with
      | [] => [mkSession sid 1]
      | _ :: rest => mkSession sid 2 :: paired rest
      end
  end.

(** And what the joins are expected to return. *)
Fixpoint pair_up (js : list (string * string)) : list (string * string) :=
  match js with
  | [] => []
  | (p1, sid) :: tl =>
      match tl with
      | [] => [(sid, p1)]
      | (p2, _) :: rest => (sid, p1) :: (sid, p2) :: pair_up rest
      end
  end.

(** The call of [join_session] that draws the pair [(uuid1, uuid2)]. *)
Definition join_call (j : string * string) : Call := Join (fst j) (snd j).

(** Sessions that both players have joined. *)
Definition full_rows (s : Store) : list SessionRow :=
  filter (fun r => player_count r =? 2) (sessions s).

(** The order of the phases. *)
Definition phase_rank (phase : string) : nat :=
  if String.eqb phase waiting_for_opponent then 0%nat
  else if String.eqb phase waiting_for_moves then 1%nat
  else 2%nat.

(** Several INSERT or UPDATE statements, one [cur.execute] after the
    other, and what they do to a database when nothing interrupts them. *)
Fixpoint execute_all (stmts : list (Store -> Exn + Store)) : Cur unit :=
  match stmts with
  | [] => ret tt
  | stmt :: rest => execute stmt ;;; execute_all rest
  end.

Fixpoint apply_all (stmts : list (Store -> Exn + Store)) (s : Store)
  : Exn + Store :=
  match stmts with
  | [] => inr s
  | stmt :: rest =>
      match stmt s with
      | inr w => apply_all rest w
      | inl e => inl e
      end
  end.

(** A session that was joined twice and has no move yet. *)
Definition paired_no_moves : Store := mkStore [mkSession "s1" 2] [].

(** * Proofs *)

(** ** Scenarios *)

Example scenario_A :
  let '(r, s) := join_session "p1" "s1" empty_db in
  r = inr ("s1", "p1") /\
  fst (get_state "s1" s) = inr (mkState 1 0 waiting_for_opponent).
Proof. vm_compute. split; reflexivity. Qed.

Example scenario_B :
  let s1 := snd (join_session "p1" "s1" empty_db) in
  let '(r, s2) := join_session "p2" "s2" s1 in
  r = inr ("s1", "p2") /\
  fst (get_state "s1" s2) = inr (mkState 2 0 waiting_for_moves).
Proof. vm_compute. split; reflexivity. Qed.

Example scenario_C :
  let s1 := snd (join_session "p1" "s1" empty_db) in
  let s2 := snd (join_session "p2" "s2" s1) in
  let '(r3, s3) := save_move "s1" "p1" "rock" s2 in
  let '(r4, s4) := save_move "s1" "p1" "paper" s3 in
  let '(r5, s5) := save_move "s1" "p2" "scissors" s4 in
  r3 = inr tt /\ r4 = inl duplicate_move /\ r5 = inr tt /\
  fst (get_state "s1" s5) = inr (mkState 2 2 finished) /\
  fst (get_results "s1" s5) =
    inr [mkResult "p1" "rock"; mkResult "p2" "scissors"].
Proof. vm_compute. repeat split; reflexivity. Qed.

Example scenario_D :
  save_move "unknown-id" "p1" "rock" empty_db =
    (inl (unknown_session "unknown-id"), empty_db).
Proof. reflexivity. Qed.

Example scenario_E :
  let s1 := snd (join_session "p1" "s1" empty_db) in
  save_move "s1" "p1" "rock" s1 = (inl not_paired, s1).
Proof. reflexivity. Qed.

(** * Closed forms

    Each public function, with the cursor plumbing evaluated away. *)

Lemma join_session_eq (uuid1 uuid2 : string) (s : Store) :
  join_session uuid1 uuid2 s =
  match select_open_session s with
  | Some sid =>
      match update_player_count sid s with
      | inr w => (inr (sid, uuid1), w)
      | inl e => (inl e, s)
      end
  | None =>
      match insert_session uuid2 s with
      | inr w => (inr (uuid2, uuid1), w)
      | inl e => (inl e, s)
      end
  end.
Proof.
  cbv beta iota zeta delta
    [join_session _get_conn bind query execute ret view db_file txn].
  destruct (select_open_session s) as [sid|].
  - destruct (update_player_count sid s); reflexivity.
  - destruct (insert_session uuid2 s); reflexivity.
Qed.

Lemma get_state_eq (sid : string) (s : Store) :
  get_state sid s =
  match select_player_count sid s with
  | Some p =>
      (inr (mkState p (count_moves sid s) (decide_phase p (count_moves sid s))), s)
  | None => (inl (unknown_session sid), s)
  end.
Proof.
  cbv beta iota zeta delta
    [get_state _get_conn bind query raise ret view db_file txn].
  destruct (select_player_count sid s); reflexivity.
Qed.

Lemma get_results_eq (sid : string) (s : Store) :
  get_results sid s =
  (inr (map (fun m => mkResult (player_id m) (choice m)) (moves_of sid s)), s).
Proof.
  cbv beta iota zeta delta
    [get_results _get_conn bind query ret view db_file txn select_moves].
  rewrite map_map. reflexivity.
Qed.

Lemma save_move_eq (sid pid ch : string) (s : Store) :
  save_move sid pid ch s =
  match select_player_count sid s with
  | None => (inl (unknown_session sid), s)
  | Some p =>
      let phase := decide_phase p (count_moves sid s) in
      if String.eqb phase waiting_for_opponent then (inl not_paired, s)
      else if String.eqb phase finished then (inl already_finished, s)
      else match insert_move sid pid ch s with
           | inr w => (inr tt, w)
           | inl (IntegrityError _) => (inl duplicate_move, s)
           | inl e => (inl e, s)
           end
  end.
Proof.
  cbv beta iota zeta delta [save_move _get_conn bind call db_file txn].
  rewrite get_state_eq.
  destruct (select_player_count sid s) as [p|]; [|reflexivity].
  cbv beta iota zeta delta [st_phase].
  destruct (String.eqb (decide_phase p (count_moves sid s)) waiting_for_opponent);
    [reflexivity|].
  destruct (String.eqb (decide_phase p (count_moves sid s)) finished);
    [reflexivity|].
  cbv beta iota zeta delta [except_integrity execute raise view db_file txn].
  destruct (insert_move sid pid ch s) as [[m|m]|w]; reflexivity.
Qed.

Lemma schema_ok_empty : schema_ok empty_db.
Proof. solve_schema. Qed.

(** ** Facts about the tables *)

Section Tables.

Variable sid : string.

Lemma find_app_cons {A : Type} (f : A -> bool) (l : list A) (x : A) :
  find f l = Some x ->
  exists before after,
    l = before ++ x :: after /\ f x = true /\
    (forall y, In y before -> f y = false).
Proof.
  induction l as [|a l IH]; simpl; [discriminate|].
  destruct (f a) eqn:Hfa.
  - intros [= <-]. exists [], l. simpl. intuition.
  - intros H. destruct (IH H) as (b & c & -> & Hx & Hb).
    exists (a :: b), c. simpl. intuition (subst; auto).
Qed.

Lemma bump_other (r : SessionRow) : id r <> sid -> bump sid r = r.
Proof.
  intros H. unfold bump.
  destruct (String.eqb_spec (id r) sid); [contradiction|reflexivity].
Qed.

Lemma map_bump_other (l : list SessionRow) :
  (forall r, In r l -> id r <> sid) -> map (bump sid) l = l.
Proof.
  induction l as [|a l IH]; simpl; intros H; [reflexivity|].
  rewrite bump_other, IH; auto.
Qed.

Lemma session_exists_In (s : Store) :
  session_exists sid s = true <-> In sid (map id (sessions s)).
Proof.
  unfold session_exists. rewrite existsb_exists, in_map_iff.
  split.
  - intros (r & H1 & H2). apply String.eqb_eq in H2. eauto.
  - intros (r & H1 & H2). exists r. split; [assumption|].
    apply String.eqb_eq. assumption.
Qed.

Lemma select_player_count_None (s : Store) :
  select_player_count sid s = None <-> session_exists sid s = false.
Proof.
  unfold select_player_count, session_exists.
  induction (sessions s) as [|a l IH]; simpl; [tauto|].
  destruct (String.eqb (id a) sid); simpl; [split; discriminate|exact IH].
Qed.

Lemma select_player_count_row (s : Store) (r : SessionRow) :
  NoDup (map id (sessions s)) -> In r (sessions s) -> id r = sid ->
  select_player_count sid s = Some (player_count r).
Proof.
  unfold select_player_count.
  induction (sessions s) as [|a l IH]; simpl; [tauto|].
  intros Hnd [->|Hin] Hid.
  - rewrite (proj2 (String.eqb_eq _ _) Hid). reflexivity.
  - inversion Hnd as [|? ? Hnotin Hnd']; subst.
    destruct (String.eqb_spec (id a) (id r)) as [E|_]; [|auto].
    exfalso. apply Hnotin. rewrite E. apply in_map. assumption.
Qed.

Lemma NoDup_id_eq (s : Store) (r r' : SessionRow) :
  NoDup (map id (sessions s)) -> In r (sessions s) -> In r' (sessions s) ->
  id r = id r' -> r = r'.
Proof.
  induction (sessions s) as [|a l IH]; simpl; [tauto|].
  intros Hnd Hr Hr' E. inversion Hnd as [|? ? Hnotin Hnd']; subst.
  destruct Hr as [->|Hr]; destruct Hr' as [->|Hr']; auto.
  - exfalso. apply Hnotin. rewrite E. apply in_map. assumption.
  - exfalso. apply Hnotin. rewrite <- E. apply in_map. assumption.
Qed.

Lemma written_rows_In (s : Store) (r : SessionRow) :
  In r (sessions s) -> id r = sid -> In (bump sid r) (written_rows sid s).
Proof.
  intros Hr E. unfold written_rows. apply in_map, filter_In.
  split; [assumption|]. apply String.eqb_eq. assumption.
Qed.

(** With a primary key the UPDATE writes one row; it succeeds when that
    row's new count passes the CHECK. *)
Lemma update_player_count_unique (s : Store) (r : SessionRow) :
  NoDup (map id (sessions s)) -> In r (sessions s) -> id r = sid ->
  check_player_count (player_count r + 1) = true ->
  update_player_count sid s =
    inr (mkStore (map (bump sid) (sessions s)) (moves s)).
Proof.
  intros Hnd Hr E Hc. unfold update_player_count.
  replace (forallb _ _) with true; [reflexivity|].
  symmetry. apply forallb_forall. intros x Hx. unfold written_rows in Hx.
  apply in_map_iff in Hx. destruct Hx as (y & <- & Hy).
  apply filter_In in Hy. destruct Hy as [Hy Hid]. apply String.eqb_eq in Hid.
  assert (y = r) by (apply (NoDup_id_eq s); congruence). subst y.
  unfold bump. rewrite (proj2 (String.eqb_eq _ _) E). exact Hc.
Qed.

End Tables.

(** * [join_session] *)

(** When the identifier drawn for a new session is already a primary key,
    the INSERT fails, the exception escapes and nothing is committed. *)
Lemma join_session_collision (s : Store) (uuid1 uuid2 : string) :
  select_open_session s = None -> session_exists uuid2 s = true ->
  join_session uuid1 uuid2 s =
    (inl (IntegrityError "UNIQUE constraint failed: sessions.id"), s).
Proof.
  intros H1 H2. rewrite join_session_eq, H1. unfold insert_session.
  rewrite H2. reflexivity.
Qed.

(** C1. On a database that satisfies its schema, and with the session
    identifier drawn by the call being a new one, [join_session] either
    (a) picks a row of [sessions] whose [player_count] is 1, rewrites that
    row alone to [player_count = 2] and returns its id with the player
    identifier just generated, or (b) finds no row with [player_count = 1],
    appends the single row [(uuid2, 1)] and returns [uuid2] with the player
    identifier just generated. [moves] is untouched either way. *)
Theorem join_session_spec (s : Store) (uuid1 uuid2 : string) :
  schema_ok s ->
  session_exists uuid2 s = false ->
  (exists sid before after,
      sessions s = before ++ mkSession sid 1 :: after /\
      join_session uuid1 uuid2 s =
        (inr (sid, uuid1),
         mkStore (before ++ mkSession sid 2 :: after) (moves s)))
  \/
  ((forall r, In r (sessions s) -> player_count r <> 1) /\
   join_session uuid1 uuid2 s =
     (inr (uuid2, uuid1),
      mkStore (sessions s ++ [mkSession uuid2 1]) (moves s))).
Proof.
  intros Hok Hfresh. rewrite join_session_eq.
  unfold select_open_session.
  destruct (find (fun r => player_count r =? 1) (sessions s)) as [r|] eqn:Hfind;
    simpl.
  - left. destruct (find_app_cons _ _ _ Hfind) as (b & a & Hs & H1 & _).
    apply Z.eqb_eq in H1. destruct r as [sid n]. simpl in H1. subst n.
    exists sid, b, a. split; [assumption|]. simpl.
    pose proof (pk_sessions s Hok) as Hnd.
    pose proof (ck_sessions s Hok) as Hck.
    rewrite Hs, map_app in Hnd. simpl in Hnd.
    pose proof (NoDup_remove_2 _ _ _ Hnd) as Hnotin.
    assert (Hb : forall r, In r b -> id r <> sid).
    { intros r Hr E. apply Hnotin, in_or_app. left.
      rewrite <- E. apply in_map. assumption. }
    assert (Ha : forall r, In r a -> id r <> sid).
    { intros r Hr E. apply Hnotin, in_or_app. right.
      rewrite <- E. apply in_map. assumption. }
    rewrite (update_player_count_unique sid s (mkSession sid 1)
               (pk_sessions s Hok));
      [|rewrite Hs; apply in_elt|reflexivity|reflexivity].
    rewrite Hs, map_app. simpl.
    rewrite (map_bump_other sid b Hb), (map_bump_other sid a Ha).
    replace (bump sid (mkSession sid 1)) with (mkSession sid 2)
      by (unfold bump; simpl; rewrite String.eqb_refl; reflexivity).
    reflexivity.
  - right. split.
    + intros r Hr E. pose proof (find_none _ _ Hfind r Hr) as H.
      simpl in H. rewrite E in H. discriminate.
    + unfold insert_session. rewrite Hfresh. reflexivity.
Qed.

Lemma schema_ok_one_waiting : schema_ok one_waiting.
Proof. solve_schema. Qed.

Lemma join_session_spec_witness :
  (exists sid before after,
      sessions one_waiting = before ++ mkSession sid 1 :: after /\
      join_session "p2" "s2" one_waiting =
        (inr (sid, "p2"),
         mkStore (before ++ mkSession sid 2 :: after) (moves one_waiting)))
  \/
  ((forall r, In r (sessions one_waiting) -> player_count r <> 1) /\
   join_session "p2" "s2" one_waiting =
     (inr ("s2", "p2"),
      mkStore (sessions one_waiting ++ [mkSession "s2" 1]) (moves one_waiting))).
Proof.
  apply (join_session_spec one_waiting "p2" "s2").
  - exact schema_ok_one_waiting.
  - reflexivity.
Defined.

(** * [save_move] *)

Lemma phase_of_eq (sid : string) (s : Store) :
  phase_of sid s =
  option_map (fun p => decide_phase p (count_moves sid s))
             (select_player_count sid s).
Proof.
  unfold phase_of. rewrite get_state_eq.
  destruct (select_player_count sid s); reflexivity.
Qed.

(** The phase is one of the three names. *)
Lemma decide_phase_cases (p n : Z) :
  (p < 2 /\ decide_phase p n = waiting_for_opponent) \/
  (2 <= p /\ n < p /\ decide_phase p n = waiting_for_moves) \/
  (2 <= p /\ p <= n /\ decide_phase p n = finished).
Proof.
  unfold decide_phase.
  destruct (Z.ltb_spec p 2); [left; split; [lia|reflexivity]|].
  destruct (Z.ltb_spec n p); [right; left|right; right]; repeat split; lia.
Qed.

(** [save_move] either raises and commits nothing, or finds the session
    paired, short of moves and without a move of this player, and appends
    the row. *)
Lemma save_move_cases (sid pid ch : string) (s : Store) :
  (exists e, save_move sid pid ch s = (inl e, s)) \/
  (exists p,
      select_player_count sid s = Some p /\ 2 <= p /\
      count_moves sid s < p /\ move_exists sid pid s = false /\
      save_move sid pid ch s =
        (inr tt, mkStore (sessions s) (moves s ++ [mkMove sid pid ch]))).
Proof.
  rewrite save_move_eq.
  destruct (select_player_count sid s) as [p|] eqn:Hp; [|left; eauto].
  assert (Hex : session_exists sid s = true).
  { destruct (session_exists sid s) eqn:E; [reflexivity|].
    apply select_player_count_None in E. congruence. }
  cbv zeta.
  destruct (decide_phase_cases p (count_moves sid s))
    as [[_ ->]|[(H2 & Hlt & ->)|(_ & _ & ->)]]; simpl;
    [left; eauto| |left; eauto].
  unfold insert_move. rewrite Hex.
  destruct (move_exists sid pid s); simpl; [left; eauto|].
  right. exists p. auto.
Qed.

(** C2. [save_move] raises "unknown session" exactly when the session id
    is not in [sessions]; otherwise "not yet paired" exactly when the phase
    is [waiting_for_opponent]; otherwise "already finished" exactly when
    the phase is [finished]; otherwise "duplicate move" exactly when a row
    with the same [(session_id, player_id)] is already in [moves]; and
    otherwise it succeeds. These five outcomes are the only ones. A
    success appends exactly the one row to [moves]; any failure leaves the
    database as it was. *)
Theorem save_move_spec (s : Store) (sid pid ch : string) :
  let r := fst (save_move sid pid ch s) in
  let s' := snd (save_move sid pid ch s) in
  (r = inl (unknown_session sid) <-> session_exists sid s = false) /\
  (r = inl not_paired <-> phase_of sid s = Some waiting_for_opponent) /\
  (r = inl already_finished <-> phase_of sid s = Some finished) /\
  (r = inl duplicate_move <->
     phase_of sid s = Some waiting_for_moves /\ move_exists sid pid s = true) /\
  (r = inr tt <->
     phase_of sid s = Some waiting_for_moves /\ move_exists sid pid s = false) /\
  (r = inl (unknown_session sid) \/ r = inl not_paired \/
   r = inl already_finished \/ r = inl duplicate_move \/ r = inr tt) /\
  (r = inr tt ->
     s' = mkStore (sessions s) (moves s ++ [mkMove sid pid ch])) /\
  (forall e, r = inl e -> s' = s).
Proof.
  cbv zeta. rewrite save_move_eq, phase_of_eq.
  rewrite <- (select_player_count_None sid s).
  destruct (select_player_count sid s) as [p|] eqn:Hp; simpl option_map.
  2:{ simpl. repeat split; try discriminate; try tauto; intuition discriminate. }
  assert (Hex : session_exists sid s = true).
  { destruct (session_exists sid s) eqn:E; [reflexivity|].
    apply select_player_count_None in E. congruence. }
  cbv zeta.
  destruct (decide_phase_cases p (count_moves sid s))
    as [[_ ->]|[(_ & _ & ->)|(_ & _ & ->)]]; simpl.
  - repeat split; try discriminate; try tauto; intuition discriminate.
  - unfold insert_move. rewrite Hex.
    destruct (move_exists sid pid s); simpl;
      repeat split; try discriminate; try tauto; intuition discriminate.
  - repeat split; try discriminate; try tauto; intuition discriminate.
Qed.

Lemma save_move_spec_witness :
  snd (save_move "s1" "p2" "paper" one_move_in) =
  mkStore (sessions one_move_in)
          (moves one_move_in ++ [mkMove "s1" "p2" "paper"]).
Proof.
  apply (proj1 (proj2 (proj2 (proj2 (proj2 (proj2 (proj2
           (save_move_spec one_move_in "s1" "p2" "paper")))))))).
  reflexivity.
Defined.

(** * [get_state] *)

Lemma decide_phase_spec_phase (p n : Z) :
  check_player_count p = true -> decide_phase p n = spec_phase p n.
Proof.
  unfold check_player_count, decide_phase, spec_phase. intros H.
  apply andb_true_iff in H. destruct H as [_ H]. apply Z.leb_le in H.
  destruct (Z.ltb_spec p 2); [reflexivity|].
  replace (p =? 2) with true by (symmetry; apply Z.eqb_eq; lia).
  reflexivity.
Qed.

(** The two readings part only on a count the CHECK constraint rules out. *)
Remark decide_phase_beyond_check :
  decide_phase 3 0 = waiting_for_moves /\ spec_phase 3 0 = finished.
Proof. split; reflexivity. Qed.

Lemma session_exists_false_iff (sid : string) (s : Store) :
  session_exists sid s = false <-> ~ In sid (map id (sessions s)).
Proof.
  rewrite <- session_exists_In.
  destruct (session_exists sid s); split; congruence.
Qed.

(** The COUNT query counts the moves whose [session_id] is the one
    asked for, and no other. *)
Lemma count_moves_count_occ (sid : string) (s : Store) :
  count_moves sid s =
  Z.of_nat (count_occ string_dec (map session_id (moves s)) sid).
Proof.
  unfold count_moves, moves_of. f_equal.
  induction (moves s) as [|m l IH]; simpl; [reflexivity|].
  destruct (String.eqb_spec (session_id m) sid) as [E|E];
    destruct (string_dec (session_id m) sid) as [E'|E'];
    try contradiction; simpl; rewrite IH; reflexivity.
Qed.

(** C4. On a database that satisfies its schema, [get_state] raises
    "unknown session" exactly when no row of [sessions] has the id, raises
    nothing else, and for the row with that id returns its [player_count],
    the number of rows of [moves] whose [session_id] is that id, and the
    phase the specification assigns to that pair of numbers. *)
Theorem get_state_spec (s : Store) (sid : string) :
  schema_ok s ->
  (fst (get_state sid s) = inl (unknown_session sid) <->
     ~ In sid (map id (sessions s))) /\
  (forall e, fst (get_state sid s) = inl e -> e = unknown_session sid) /\
  (forall r, In r (sessions s) -> id r = sid ->
     let n := Z.of_nat (count_occ string_dec (map session_id (moves s)) sid) in
     get_state sid s =
       (inr (mkState (player_count r) n (spec_phase (player_count r) n)), s)).
Proof.
  intros Hok. rewrite get_state_eq.
  rewrite <- session_exists_false_iff, <- (select_player_count_None sid s).
  split; [|split].
  - destruct (select_player_count sid s); simpl; split; congruence.
  - destruct (select_player_count sid s); simpl; congruence.
  - intros r Hin Hid. cbv zeta.
    rewrite (select_player_count_row sid s r (pk_sessions s Hok) Hin Hid).
    rewrite <- count_moves_count_occ.
    rewrite decide_phase_spec_phase; [reflexivity|].
    pose proof (ck_sessions s Hok) as Hck. rewrite Forall_forall in Hck.
    apply Hck. assumption.
Qed.

Lemma schema_ok_one_move_in : schema_ok one_move_in.
Proof. solve_schema. Qed.

Lemma schema_ok_two_sessions : schema_ok two_sessions.
Proof. solve_schema. Qed.

Lemma get_state_spec_witness :
  get_state "s1" two_sessions =
    (inr (mkState 2 1 waiting_for_moves), two_sessions).
Proof.
  exact (proj2 (proj2 (get_state_spec two_sessions "s1" schema_ok_two_sessions))
               (mkSession "s1" 2) (or_introl eq_refl) eq_refl).
Defined.

(** * Reads *)

(** C9. [get_state] and [get_results] leave the whole database as it
    was, whether they return or raise, and a second call of either with
    the same argument, directly after the first or after the other read,
    returns what the first returned. *)
Theorem reads_do_not_write (s : Store) (sid : string) :
  snd (get_state sid s) = s /\
  snd (get_results sid s) = s /\
  fst (get_state sid (snd (get_state sid s))) = fst (get_state sid s) /\
  fst (get_results sid (snd (get_results sid s))) = fst (get_results sid s) /\
  (forall sid', fst (get_state sid (snd (get_results sid' s))) =
                fst (get_state sid s)) /\
  (forall sid', fst (get_results sid (snd (get_state sid' s))) =
                fst (get_results sid s)).
Proof.
  assert (Hs : forall x, snd (get_state x s) = s).
  { intros x. rewrite get_state_eq.
    destruct (select_player_count x s); reflexivity. }
  assert (Hr : forall x, snd (get_results x s) = s).
  { intros x. rewrite get_results_eq. reflexivity. }
  repeat split; intros; rewrite ?Hs, ?Hr; reflexivity.
Qed.

(** * Sequences of calls *)

(** ** What a call may write *)

Lemma step_Write (c : Call) (s : Store) : Write s c (step c s).
Proof.
  destruct c as [u1 u2|sid|sid pid ch|sid]; unfold step.
  - rewrite join_session_eq.
    destruct (select_open_session s) as [sid|] eqn:Hsel.
    + unfold update_player_count.
      destruct (forallb _ _) eqn:Hck; simpl; constructor; assumption.
    + unfold insert_session.
      destruct (session_exists u2 s) eqn:Hex; simpl; constructor; assumption.
  - rewrite get_state_eq.
    destruct (select_player_count sid s); constructor.
  - destruct (save_move_cases sid pid ch s)
      as [(e & ->)|(p & Hp & H2 & Hlt & Hdup & Hsave)]; simpl.
    + constructor.
    + rewrite Hsave. simpl. apply (WriteMove s sid pid ch p); auto.
      rewrite Hsave. reflexivity.
  - rewrite get_results_eq. constructor.
Qed.

(** Without a successful [save_move] nothing is accepted. *)
Lemma accepted_Write (sid : string) (c : Call) (s : Store) :
  moves_of sid (step c s) = moves_of sid s /\ accepted sid c s = [] \/
  exists pid ch,
    c = SaveMove sid pid ch /\
    moves_of sid (step c s) = moves_of sid s ++ [mkMove sid pid ch] /\
    accepted sid c s = [mkResult pid ch].
Proof.
  pose proof (step_Write c s) as W.
  assert (Hfail : forall sid' pid ch,
             c = SaveMove sid' pid ch -> step c s = s -> accepted sid c s = []).
  { intros sid' pid ch -> Hs. unfold step in Hs. unfold accepted.
    destruct (save_move_cases sid' pid ch s)
      as [(e & ->)|(p & _ & _ & _ & _ & Hsave)]; [reflexivity|].
    rewrite Hsave in Hs. simpl in Hs.
    apply (f_equal moves) in Hs. simpl in Hs.
    apply (f_equal (@List.length _)) in Hs. rewrite length_app in Hs.
    simpl in Hs. lia. }
  remember (step c s) as s' eqn:Hs.
  destruct W as [c|u1 u2 x Hsel Hck|u1 u2 Hsel Hex
                 |sid' pid ch p Hp H2 Hlt Hdup Hr].
  - left. split; [reflexivity|].
    destruct c as [u1 u2|x|sid' pid ch|x]; try reflexivity.
    apply (Hfail sid' pid ch eq_refl). congruence.
  - left. split; reflexivity.
  - left. split; reflexivity.
  - unfold moves_of. simpl moves. rewrite filter_app. simpl.
    rewrite Hr. destruct (String.eqb_spec sid' sid) as [->|Hne].
    + right. exists pid, ch. auto.
    + left. rewrite app_nil_r. auto.
Qed.

(** ** How each write changes what the queries see *)

Lemma NoDup_snoc {A : Type} (l : list A) (x : A) :
  NoDup l -> ~ In x l -> NoDup (l ++ [x]).
Proof.
  induction l as [|a l IH]; simpl; intros Hnd Hx.
  - constructor; [tauto|constructor].
  - inversion Hnd as [|? ? Ha Hl]; subst. constructor.
    + rewrite in_app_iff. simpl. intuition.
    + apply IH; tauto.
Qed.

Lemma map_id_bump (sid : string) (l : list SessionRow) :
  map id (map (bump sid) l) = map id l.
Proof.
  rewrite map_map. apply map_ext. intros r. unfold bump.
  destruct (String.eqb (id r) sid); reflexivity.
Qed.

Lemma select_player_count_bump (x sid : string) (s : Store) :
  select_player_count x (mkStore (map (bump sid) (sessions s)) (moves s)) =
  option_map (fun p => if String.eqb x sid then p + 1 else p)
             (select_player_count x s).
Proof.
  unfold select_player_count. simpl sessions.
  induction (sessions s) as [|a l IH]; simpl; [reflexivity|].
  assert (E : id (bump sid a) = id a).
  { unfold bump. destruct (String.eqb (id a) sid); reflexivity. }
  rewrite E. destruct (String.eqb_spec (id a) x) as [<-|_]; [|exact IH].
  simpl. unfold bump. destruct (String.eqb (id a) sid); reflexivity.
Qed.

Lemma select_player_count_snoc (x uuid : string) (s : Store) :
  select_player_count x (mkStore (sessions s ++ [mkSession uuid 1]) (moves s)) =
  match select_player_count x s with
  | Some p => Some p
  | None => if String.eqb uuid x then Some 1 else None
  end.
Proof.
  unfold select_player_count. simpl sessions.
  induction (sessions s) as [|a l IH]; simpl.
  - destruct (String.eqb uuid x); reflexivity.
  - destruct (String.eqb (id a) x); [reflexivity|exact IH].
Qed.

Lemma move_exists_false (sid pid : string) (s : Store) :
  move_exists sid pid s = false -> ~ In (sid, pid) (map move_key (moves s)).
Proof.
  unfold move_exists. intros H Hin. apply in_map_iff in Hin.
  destruct Hin as (m & Hk & Hm).
  assert (E : existsb
                (fun m => String.eqb (session_id m) sid &&
                          String.eqb (player_id m) pid) (moves s) = true).
  { apply existsb_exists. exists m. split; [assumption|].
    unfold move_key in Hk. injection Hk as -> ->.
    rewrite !String.eqb_refl. reflexivity. }
  congruence.
Qed.

Lemma moves_of_snoc (x sid pid ch : string) (s : Store) :
  moves_of x (mkStore (sessions s) (moves s ++ [mkMove sid pid ch])) =
  moves_of x s ++ (if String.eqb sid x then [mkMove sid pid ch] else []).
Proof.
  unfold moves_of. simpl moves. rewrite filter_app. simpl.
  destruct (String.eqb sid x); reflexivity.
Qed.

(** No call lowers the [player_count] a session id is stored with. *)
Lemma Write_monotone (s s' : Store) (c : Call) (x : string) (p : Z) :
  Write s c s' -> select_player_count x s = Some p ->
  exists p', select_player_count x s' = Some p' /\ p <= p'.
Proof.
  intros W Hp.
  destruct W as [c|u1 u2 sid Hsel Hck|u1 u2 Hsel Hex
                 |sid pid ch q Hq H2 Hlt Hdup Hr].
  - exists p. split; [assumption|lia].
  - rewrite select_player_count_bump, Hp. simpl.
    destruct (String.eqb x sid); eexists; split; try reflexivity; lia.
  - rewrite select_player_count_snoc, Hp. exists p. split; [reflexivity|lia].
  - exists p. split; [exact Hp|lia].
Qed.

Lemma Inv_empty : Inv empty_db.
Proof.
  constructor; simpl; try constructor. reflexivity.
Qed.

Lemma Inv_Write (s s' : Store) (c : Call) : Inv s -> Write s c s' -> Inv s'.
Proof.
  intros [Hpk Hcnt Huq Hmv] W.
  destruct W as [c|u1 u2 sid Hsel Hck|u1 u2 Hsel Hex
                 |sid pid ch q Hq H2 Hlt Hdup Hr].
  - constructor; assumption.
  - constructor; simpl sessions; simpl moves.
    + rewrite map_id_bump. assumption.
    + rewrite Forall_forall in *. intros r' Hr'.
      apply in_map_iff in Hr'. destruct Hr' as (r & <- & Hr).
      rewrite forallb_forall in Hck.
      pose proof (Hcnt r Hr) as Hr12.
      destruct (String.eqb_spec (id r) sid) as [E|E].
      * pose proof (Hck _ (written_rows_In sid s r Hr E)) as Hc.
        unfold check_player_count in Hc. apply andb_true_iff in Hc.
        destruct Hc as [_ Hc]. apply Z.leb_le in Hc. revert Hc.
        unfold bump. rewrite (proj2 (String.eqb_eq _ _) E). simpl. lia.
      * rewrite bump_other by assumption. assumption.
    + assumption.
    + intros x. destruct (Hmv x) as [H0|(p & Hp & Hp2 & Hle)]; [left; exact H0|].
      right. rewrite select_player_count_bump, Hp. simpl.
      unfold count_moves, moves_of in *. simpl moves.
      destruct (String.eqb x sid); eexists; (split; [reflexivity|lia]).
  - constructor; simpl sessions; simpl moves.
    + rewrite map_app. simpl. apply NoDup_snoc; [assumption|].
      intros Hin. apply session_exists_In in Hin. congruence.
    + apply Forall_app. split; [assumption|]. repeat constructor.
    + assumption.
    + intros x. destruct (Hmv x) as [H0|(p & Hp & Hp2 & Hle)]; [left; exact H0|].
      right. rewrite select_player_count_snoc, Hp. exists p. auto.
  - constructor; simpl sessions; simpl moves.
    + assumption.
    + assumption.
    + rewrite map_app. simpl. apply NoDup_snoc; [assumption|].
      apply move_exists_false. assumption.
    + intros x. unfold count_moves. rewrite moves_of_snoc.
      destruct (String.eqb_spec sid x) as [<-|Hne].
      * right. exists q. unfold select_player_count in *. simpl sessions.
        split; [assumption|]. split; [assumption|].
        rewrite length_app. simpl. unfold count_moves in Hlt. lia.
      * rewrite app_nil_r.
        destruct (Hmv x) as [H0|(p & Hp & Hp2 & Hle)]; [left; exact H0|].
        right. exists p. auto.
Qed.

Lemma Inv_run_from (cs : list Call) (s : Store) : Inv s -> Inv (run cs s).
Proof.
  revert s. induction cs as [|c cs IH]; intros s H; simpl; [assumption|].
  apply IH. apply (Inv_Write s _ c H). apply step_Write.
Qed.

Lemma Inv_run (cs : list Call) : Inv (run cs empty_db).
Proof. apply Inv_run_from, Inv_empty. Qed.

Lemma run_app (cs cs' : list Call) (s : Store) :
  run (cs ++ cs') s = run cs' (run cs s).
Proof. unfold run. apply fold_left_app. Qed.

(** * Invariants of reachable databases *)

Lemma select_player_count_Some (x : string) (s : Store) (p : Z) :
  select_player_count x s = Some p ->
  exists r, In r (sessions s) /\ id r = x /\ player_count r = p.
Proof.
  unfold select_player_count.
  destruct (find (fun r => String.eqb (id r) x) (sessions s)) as [r|] eqn:Hf;
    [|discriminate].
  intros [= <-]. apply find_some in Hf. destruct Hf as [Hin Hid].
  apply String.eqb_eq in Hid. eauto.
Qed.

Lemma run_monotone (cs : list Call) (s : Store) (x : string) (p : Z) :
  select_player_count x s = Some p ->
  exists p', select_player_count x (run cs s) = Some p' /\ p <= p'.
Proof.
  revert s p. induction cs as [|c cs IH]; intros s p Hp; simpl.
  - exists p. split; [assumption|lia].
  - destruct (Write_monotone s _ c x p (step_Write c s) Hp) as (q & Hq & Hle).
    destruct (IH _ q Hq) as (p' & Hp' & Hle'). exists p'. split; [assumption|lia].
Qed.

(** C5. In every database reached from the empty one by calls of the
    four functions, every session row has [0 <= player_count <= 2]; and
    whatever calls follow, each of its sessions is still there with a
    [player_count] at least as large. *)
Theorem player_count_bounded_monotone (cs : list Call) :
  let s := run cs empty_db in
  Forall (fun r => 0 <= player_count r <= 2) (sessions s) /\
  (forall cs',
      Forall (fun r =>
                exists r', In r' (sessions (run cs' s)) /\ id r' = id r /\
                           player_count r <= player_count r')
             (sessions s)).
Proof.
  cbv zeta. pose proof (Inv_run cs) as I. split.
  - eapply Forall_impl; [|exact (inv_count _ I)]. simpl. lia.
  - intros cs'. apply Forall_forall. intros r Hr.
    pose proof (select_player_count_row (id r) _ r (inv_pk _ I) Hr eq_refl) as Hp.
    destruct (run_monotone cs' _ _ _ Hp) as (p' & Hp' & Hle).
    destruct (select_player_count_Some _ _ _ Hp') as (r' & Hin & Hid & Hc).
    exists r'. repeat split; [assumption|assumption|lia].
Qed.

Lemma distinct_players_le_count (sid : string) (s : Store) :
  distinct_players sid s <= count_moves sid s.
Proof.
  unfold distinct_players, count_moves. apply Nat2Z.inj_le.
  rewrite <- (length_map player_id (moves_of sid s)).
  apply NoDup_incl_length; [apply NoDup_nodup|].
  intros x Hx. apply nodup_In in Hx. assumption.
Qed.

(** C6. In every database reached from the empty one by calls of the
    four functions, the moves of each session carry no more distinct
    [player_id]s than the session's [player_count]. *)
Theorem distinct_players_le_player_count (cs : list Call) :
  let s := run cs empty_db in
  Forall (fun r => distinct_players (id r) s <= player_count r) (sessions s).
Proof.
  cbv zeta. pose proof (Inv_run cs) as I. apply Forall_forall. intros r Hr.
  pose proof (select_player_count_row (id r) _ r (inv_pk _ I) Hr eq_refl) as Hp.
  pose proof (distinct_players_le_count (id r) (run cs empty_db)) as Hd.
  destruct (inv_moves _ I (id r)) as [H0|(p & Hp' & _ & Hle)].
  - unfold count_moves in Hd. rewrite H0 in Hd. simpl in Hd.
    pose proof (inv_count _ I) as Hc. rewrite Forall_forall in Hc.
    specialize (Hc r Hr). lia.
  - rewrite Hp in Hp'. injection Hp' as <-. lia.
Qed.

(** C10. In every database reached from the empty one by calls of the
    four functions, every session row has [player_count] 1 or 2, never 0.
    And on any database that satisfies its schema, even one that holds
    rows with [player_count = 0], a row that a call adds or rewrites has
    [player_count] 1 or 2. *)
Theorem player_count_one_or_two :
  (forall cs,
      Forall (fun r => player_count r = 1 \/ player_count r = 2)
             (sessions (run cs empty_db))) /\
  (forall s c r,
      schema_ok s -> In r (sessions (step c s)) -> ~ In r (sessions s) ->
      player_count r = 1 \/ player_count r = 2).
Proof.
  split.
  - intros cs. exact (inv_count _ (Inv_run cs)).
  - intros s c r Hok Hin Hnew. pose proof (step_Write c s) as W.
    remember (step c s) as s' eqn:Hs'.
    destruct W as [c|u1 u2 sid Hsel Hck|u1 u2 Hsel Hex
                   |sid pid ch q Hq H2 Hlt Hdup Hr]; simpl in Hin;
      try contradiction.
    + apply in_map_iff in Hin. destruct Hin as (r0 & <- & Hr0).
      unfold select_open_session in Hsel.
      destruct (find (fun r => player_count r =? 1) (sessions s))
        as [o|] eqn:Hf; [|discriminate].
      simpl in Hsel. injection Hsel as <-.
      apply find_some in Hf. destruct Hf as [Ho H1]. apply Z.eqb_eq in H1.
      pose proof (select_player_count_row (id o) s o (pk_sessions s Hok) Ho
                    eq_refl) as Ha.
      destruct (String.eqb_spec (id r0) (id o)) as [E|Hne].
      * pose proof (select_player_count_row (id o) s r0 (pk_sessions s Hok)
                      Hr0 E) as Hb.
        rewrite Ha in Hb. injection Hb as Hb.
        unfold bump. rewrite (proj2 (String.eqb_eq _ _) E). simpl. lia.
      * exfalso. apply Hnew. rewrite bump_other; assumption.
    + apply in_app_or in Hin. destruct Hin as [Hin|[<-|[]]];
        [contradiction|]. left. reflexivity.
Qed.

Lemma schema_ok_zero_and_one : schema_ok zero_and_one.
Proof. solve_schema. Qed.

Lemma player_count_one_or_two_witness :
  player_count (mkSession "s1" 2) = 1 \/ player_count (mkSession "s1" 2) = 2.
Proof.
  apply (proj2 player_count_one_or_two zero_and_one (Join "p2" "s2")
               (mkSession "s1" 2)).
  - exact schema_ok_zero_and_one.
  - right. left. reflexivity.
  - intros [H|[H|[]]]; discriminate.
Defined.

(** * Moves and the players that joined *)

Lemma NoDup_players_of_session (sid : string) (l : list MoveRow) :
  NoDup (map move_key l) ->
  NoDup (map player_id
             (filter (fun m => String.eqb (session_id m) sid) l)).
Proof.
  induction l as [|a l IH]; simpl; intros Hnd; [constructor|].
  inversion Hnd as [|? ? Ha Hl]; subst.
  destruct (String.eqb_spec (session_id a) sid) as [E|_]; [|auto].
  simpl. constructor; [|auto].
  intros Hin. apply in_map_iff in Hin. destruct Hin as (m & Hpid & Hm).
  apply filter_In in Hm. destruct Hm as [Hm Hsid].
  apply String.eqb_eq in Hsid. apply Ha. apply in_map_iff.
  exists m. split; [|assumption]. unfold move_key. congruence.
Qed.

(** C7, as stated, fails: [save_move] accepts a [player_id] that no
    [join_session] call ever returned. After [gatecrash] the session's
    only move is by ["mallory"], while the joins issued ["p1"] and
    ["p2"]. *)
Lemma move_by_player_never_issued :
  issued gatecrash empty_db = [("s1", "p1"); ("s1", "p2")] /\
  moves (run gatecrash empty_db) = [mkMove "s1" "mallory" "rock"] /\
  ~ (forall m, In m (moves (run gatecrash empty_db)) ->
               In (session_id m, player_id m) (issued gatecrash empty_db)).
Proof.
  split; [reflexivity|]. split; [reflexivity|].
  intros H. specialize (H (mkMove "s1" "mallory" "rock") (or_introl eq_refl)).
  simpl in H. destruct H as [H|[H|[]]]; discriminate.
Qed.

(** C7, amended. In every database reached from the empty one by calls
    of the four functions, each session id has zero, one or two moves,
    no two of them with the same [player_id], and it has moves only if
    its [player_count] is 2. *)
Theorem moves_per_session (cs : list Call) (sid : string) :
  let s := run cs empty_db in
  (List.length (moves_of sid s) <= 2)%nat /\
  NoDup (map player_id (moves_of sid s)) /\
  (moves_of sid s = [] \/ select_player_count sid s = Some 2).
Proof.
  cbv zeta. pose proof (Inv_run cs) as I.
  split; [|split].
  - destruct (inv_moves _ I sid) as [->|(p & Hp & H2 & Hle)]; [simpl; lia|].
    destruct (select_player_count_Some _ _ _ Hp) as (r & Hr & _ & Hc).
    pose proof (inv_count _ I) as Hcnt. rewrite Forall_forall in Hcnt.
    specialize (Hcnt r Hr). unfold count_moves in Hle. lia.
  - apply NoDup_players_of_session. exact (inv_uq _ I).
  - destruct (inv_moves _ I sid) as [H0|(p & Hp & H2 & Hle)]; [left; exact H0|].
    right. destruct (select_player_count_Some _ _ _ Hp) as (r & Hr & _ & Hc).
    pose proof (inv_count _ I) as Hcnt. rewrite Forall_forall in Hcnt.
    specialize (Hcnt r Hr). rewrite Hp. f_equal. lia.
Qed.

(** * [get_results] *)

(** C3, as stated, fails: for a session id that is not in [sessions],
    [get_results] raises nothing and returns the empty list. *)
Lemma get_results_unknown_session :
  session_exists "no-such-session" empty_db = false /\
  get_results "no-such-session" empty_db = (inr [], empty_db) /\
  ~ (exists e, fst (get_results "no-such-session" empty_db) = inl e).
Proof.
  split; [reflexivity|]. split; [reflexivity|].
  intros [e H]. discriminate H.
Qed.

Lemma run_submitted (sid : string) (cs : list Call) (s : Store) :
  map (fun m => mkResult (player_id m) (choice m)) (moves_of sid (run cs s)) =
  map (fun m => mkResult (player_id m) (choice m)) (moves_of sid s)
  ++ submitted sid cs s.
Proof.
  revert s. induction cs as [|c cs IH]; intros s; simpl.
  - rewrite app_nil_r. reflexivity.
  - rewrite IH.
    destruct (accepted_Write sid c s) as [[-> ->]|(pid & ch & _ & -> & ->)].
    + reflexivity.
    + rewrite map_app, <- app_assoc. reflexivity.
Qed.

Lemma moves_of_unknown (x : string) (s : Store) :
  Forall (fun m => session_exists (session_id m) s = true) (moves s) ->
  session_exists x s = false -> moves_of x s = [].
Proof.
  intros Hfk Hx. unfold moves_of.
  induction (moves s) as [|m l IH]; simpl; [reflexivity|].
  inversion Hfk as [|? ? Hm Hl]; subst.
  destruct (String.eqb_spec (session_id m) x) as [E|_]; [|auto].
  rewrite E in Hm. congruence.
Qed.

(** Without the foreign key the empty answer is not guaranteed: the
    moves of a session that is gone are still returned. *)
Remark get_results_orphan_move :
  ~ In "ghost" (map id (sessions orphan_move)) /\
  get_results "ghost" orphan_move = (inr [mkResult "p1" "rock"], orphan_move).
Proof. split; [simpl; tauto|reflexivity]. Qed.

(** C3, amended. [get_results] never raises and never writes. On any
    database it returns exactly the rows of [moves] whose [session_id] is
    the one asked for, in ROWID order; after any further calls it returns
    that same list followed by the moves [save_move] has accepted for the
    session since, in the order of the calls, so from the empty database
    the list is the accepted moves in call order. On a database that
    satisfies its schema it returns the empty list for a session id that
    is not in [sessions]. *)
Theorem get_results_spec :
  (forall s sid,
      get_results sid s =
        (inr (map (fun m => mkResult (player_id m) (choice m))
                  (filter (fun m => String.eqb (session_id m) sid) (moves s))),
         s)) /\
  (forall cs sid,
      let s := run cs empty_db in
      get_results sid s = (inr (submitted sid cs empty_db), s) /\
      (session_exists sid s = false -> submitted sid cs empty_db = [])) /\
  (forall s sid,
      schema_ok s -> ~ In sid (map id (sessions s)) ->
      get_results sid s = (inr [], s)) /\
  (forall s cs sid,
      exists l,
        get_results sid s = (inr l, s) /\
        get_results sid (run cs s) = (inr (l ++ submitted sid cs s), run cs s)).
Proof.
  split; [exact (fun s sid => get_results_eq sid s)|].
  split; [|split].
  - intros cs sid. cbv zeta.
    assert (E : map (fun m => mkResult (player_id m) (choice m))
                    (moves_of sid (run cs empty_db)) =
                submitted sid cs empty_db).
    { rewrite run_submitted. reflexivity. }
    split.
    + rewrite get_results_eq, E. reflexivity.
    + intros Hex. rewrite <- E.
      destruct (inv_moves _ (Inv_run cs) sid) as [->|(p & Hp & _)];
        [reflexivity|].
      apply select_player_count_None in Hex. congruence.
  - intros s sid Hok Hno. apply session_exists_false_iff in Hno.
    rewrite get_results_eq, (moves_of_unknown sid s (fk_moves s Hok) Hno).
    reflexivity.
  - intros s cs sid. eexists. split; [apply get_results_eq|].
    rewrite get_results_eq, run_submitted. reflexivity.
Qed.

Lemma get_results_spec_witness :
  get_results "no-such-session" two_sessions = (inr [], two_sessions).
Proof.
  apply (proj1 (proj2 (proj2 get_results_spec)) two_sessions "no-such-session").
  - exact schema_ok_two_sessions.
  - simpl. intros [H|[H|[]]]; discriminate.
Defined.

(** * Further properties *)

(** ** Joining *)

Lemma find_filter_nil {A : Type} (f : A -> bool) (l : list A) :
  find f l = None -> filter f l = [].
Proof.
  induction l as [|a l IH]; simpl; [reflexivity|].
  destruct (f a); [discriminate|exact IH].
Qed.

Lemma filter_nil_find {A : Type} (f : A -> bool) (l : list A) :
  filter f l = [] -> find f l = None.
Proof.
  induction l as [|a l IH]; simpl; [reflexivity|].
  destruct (f a); [discriminate|exact IH].
Qed.

(** The UPDATE of [join_session], on a table with a primary key and the
    CHECK constraint: it rewrites the first waiting row and no other. *)
Lemma bump_open_row (rows : list SessionRow) (r : SessionRow) :
  NoDup (map id rows) ->
  find (fun r => player_count r =? 1) rows = Some r ->
  exists before after,
    rows = before ++ r :: after /\ player_count r = 1 /\
    filter (fun r => player_count r =? 1) before = [] /\
    map (bump (id r)) rows = before ++ mkSession (id r) 2 :: after.
Proof.
  intros Hnd Hfind.
  destruct (find_app_cons _ _ _ Hfind) as (b & a & -> & H1 & Hb).
  apply Z.eqb_eq in H1. exists b, a.
  split; [reflexivity|]. split; [assumption|]. split.
  - clear - Hb. induction b as [|x b IH]; simpl; [reflexivity|].
    rewrite (Hb x (or_introl eq_refl)). apply IH. intros y Hy.
    apply Hb. right. assumption.
  - rewrite map_app in Hnd. simpl in Hnd.
    pose proof (NoDup_remove_2 _ _ _ Hnd) as Hnotin.
    rewrite map_app. simpl.
    rewrite (map_bump_other (id r) b), (map_bump_other (id r) a).
    + unfold bump. rewrite String.eqb_refl, H1. reflexivity.
    + intros x Hx E. apply Hnotin, in_or_app. right.
      rewrite <- E. apply in_map. assumption.
    + intros x Hx E. apply Hnotin, in_or_app. left.
      rewrite <- E. apply in_map. assumption.
Qed.

Lemma update_player_count_open (s : Store) (sid : string) :
  NoDup (map id (sessions s)) ->
  Forall (fun r => check_player_count (player_count r) = true) (sessions s) ->
  select_open_session s = Some sid ->
  exists before after,
    sessions s = before ++ mkSession sid 1 :: after /\
    filter (fun r => player_count r =? 1) before = [] /\
    update_player_count sid s =
      inr (mkStore (before ++ mkSession sid 2 :: after) (moves s)).
Proof.
  intros Hnd Hck Hsel. unfold select_open_session in Hsel.
  destruct (find (fun r => player_count r =? 1) (sessions s)) as [r|] eqn:Hf;
    [|discriminate].
  simpl in Hsel. injection Hsel as <-.
  destruct (bump_open_row _ _ Hnd Hf) as (b & a & Hs & H1 & Hb & Hmap).
  exists b, a. destruct r as [x n]. simpl in *. subst n.
  split; [assumption|]. split; [assumption|].
  rewrite (update_player_count_unique x s (mkSession x 1) Hnd);
    [|rewrite Hs; apply in_elt|reflexivity|reflexivity].
  rewrite Hmap. reflexivity.
Qed.

(** X1. On a database that satisfies its schema, [join_session] raises
    exactly when no session is waiting and the identifier drawn for the
    new session is already a primary key; what it raises then is the
    IntegrityError of the INSERT, and the database is left as it was. *)
Theorem join_session_raises_iff (s : Store) (uuid1 uuid2 : string) :
  schema_ok s ->
  ((exists e, fst (join_session uuid1 uuid2 s) = inl e) <->
   select_open_session s = None /\ session_exists uuid2 s = true) /\
  (forall e, fst (join_session uuid1 uuid2 s) = inl e ->
     e = IntegrityError "UNIQUE constraint failed: sessions.id" /\
     snd (join_session uuid1 uuid2 s) = s).
Proof.
  intros Hok. rewrite join_session_eq.
  destruct (select_open_session s) as [sid|] eqn:Hsel.
  - destruct (update_player_count_open s sid (pk_sessions s Hok)
                (ck_sessions s Hok) Hsel) as (b & a & _ & _ & ->).
    simpl. split; [split|].
    + intros [e H]. discriminate.
    + intros [H _]. discriminate.
    + intros e H. discriminate.
  - unfold insert_session. destruct (session_exists uuid2 s); simpl.
    + split; [split; eauto|]. intros e [= <-]. auto.
    + split; [split|].
      * intros [e H]. discriminate.
      * intros [_ H]. discriminate.
      * intros e H. discriminate.
Qed.

Lemma join_session_raises_iff_witness :
  exists e, fst (join_session "p3" "s1" paired_no_moves) = inl e.
Proof.
  apply (proj1 (join_session_raises_iff paired_no_moves "p3" "s1"
                  ltac:(solve_schema))).
  split; reflexivity.
Defined.

(** ** The schema is kept *)

Lemma session_exists_same_ids (x : string) (s s' : Store) :
  map id (sessions s') = map id (sessions s) ->
  session_exists x s' = session_exists x s.
Proof.
  intros E. apply eq_true_iff_eq.
  rewrite !session_exists_In, E. tauto.
Qed.

Lemma session_exists_snoc (x uuid : string) (s : Store) (m : list MoveRow) :
  session_exists x s = true ->
  session_exists x (mkStore (sessions s ++ [mkSession uuid 1]) m) = true.
Proof.
  unfold session_exists. simpl. rewrite existsb_app. intros ->. reflexivity.
Qed.

Lemma schema_ok_Write (s s' : Store) (c : Call) :
  schema_ok s -> Write s c s' -> schema_ok s'.
Proof.
  intros [Hpk Hck Huq Hfk] W.
  destruct W as [c|u1 u2 sid Hsel Hbump|u1 u2 Hsel Hex
                 |sid pid ch q Hq H2 Hlt Hdup Hr].
  - constructor; assumption.
  - constructor; simpl sessions; simpl moves.
    + rewrite map_id_bump. assumption.
    + apply Forall_forall. intros r' Hr'.
      apply in_map_iff in Hr'. destruct Hr' as (r & <- & Hr).
      rewrite forallb_forall in Hbump. rewrite Forall_forall in Hck.
      destruct (String.eqb_spec (id r) sid) as [E|E].
      * apply Hbump. apply written_rows_In; assumption.
      * rewrite bump_other by assumption. apply Hck. assumption.
    + assumption.
    + eapply Forall_impl; [|exact Hfk]. intros m Hm. simpl in Hm.
      rewrite <- Hm. apply session_exists_same_ids. simpl.
      apply map_id_bump.
  - constructor; simpl sessions; simpl moves.
    + rewrite map_app. simpl. apply NoDup_snoc; [assumption|].
      intros Hin. apply session_exists_In in Hin. congruence.
    + apply Forall_app. split; [assumption|]. repeat constructor.
    + assumption.
    + eapply Forall_impl; [|exact Hfk]. intros m Hm. simpl in Hm.
      apply session_exists_snoc. assumption.
  - constructor; simpl sessions; simpl moves.
    + assumption.
    + assumption.
    + rewrite map_app. simpl. apply NoDup_snoc; [assumption|].
      apply move_exists_false. assumption.
    + assert (E : session_exists sid s = true).
      { destruct (session_exists sid s) eqn:E; [reflexivity|].
        apply select_player_count_None in E. congruence. }
      apply Forall_app. split.
      * eapply Forall_impl; [|exact Hfk]. intros m Hm. exact Hm.
      * repeat constructor. exact E.
Qed.

(** X2. Whatever the call and its arguments, a database that satisfies
    the schema of [init_db] (primary key and CHECK of [sessions], UNIQUE
    and foreign key of [moves]) still satisfies it afterwards, and so
    after any sequence of calls. *)
Theorem schema_ok_run (cs : list Call) (s : Store) :
  schema_ok s -> schema_ok (run cs s).
Proof.
  revert s. induction cs as [|c cs IH]; intros s H; simpl; [assumption|].
  apply IH. apply (schema_ok_Write s _ c H). apply step_Write.
Qed.

Lemma schema_ok_run_witness :
  schema_ok (run [Join "p2" "s2"; SaveMove "s1" "p2" "rock"] one_waiting).
Proof.
  apply (schema_ok_run [Join "p2" "s2"; SaveMove "s1" "p2" "rock"] one_waiting).
  exact schema_ok_one_waiting.
Defined.

(** ** Rows are only ever added *)

Lemma Write_extends (s s' : Store) (c : Call) :
  Write s c s' ->
  (exists ms, moves s' = moves s ++ ms) /\
  (exists ids, map id (sessions s') = map id (sessions s) ++ ids).
Proof.
  intros W.
  destruct W as [c|u1 u2 sid Hsel Hbump|u1 u2 Hsel Hex
                 |sid pid ch q Hq H2 Hlt Hdup Hr]; simpl.
  - split; exists []; rewrite app_nil_r; reflexivity.
  - split; [exists []|exists []]; rewrite app_nil_r;
      [reflexivity|apply map_id_bump].
  - split; [exists []; rewrite app_nil_r; reflexivity|].
    exists [u2]. rewrite map_app. reflexivity.
  - split; [eexists; reflexivity|]. exists []. rewrite app_nil_r. reflexivity.
Qed.

Lemma run_extends (cs : list Call) (s : Store) :
  (exists ms, moves (run cs s) = moves s ++ ms) /\
  (exists ids, map id (sessions (run cs s)) = map id (sessions s) ++ ids).
Proof.
  revert s. induction cs as [|c cs IH]; intros s; simpl.
  - split; exists []; rewrite app_nil_r; reflexivity.
  - destruct (IH (step c s)) as [[ms Hm] [ids Hi]].
    destruct (Write_extends s _ c (step_Write c s)) as [[ms' Hm'] [ids' Hi']].
    split.
    + exists (ms' ++ ms). rewrite Hm, Hm', app_assoc. reflexivity.
    + exists (ids' ++ ids). rewrite Hi, Hi', app_assoc. reflexivity.
Qed.

(** X3. No sequence of calls removes, rewrites or reorders a row of
    [moves], and none removes a session or changes its id: on any
    database, the [moves] table afterwards is the old one followed by the
    new rows, and so is the list of session ids. *)
Theorem rows_only_added (cs : list Call) (s : Store) :
  (exists ms, moves (run cs s) = moves s ++ ms) /\
  (exists ids, map id (sessions (run cs s)) = map id (sessions s) ++ ids).
Proof. exact (run_extends cs s). Qed.

(** ** At most one session waits *)

Lemma open_rows_Write (s s' : Store) (c : Call) :
  Inv s -> (List.length (open_rows s) <= 1)%nat -> Write s c s' ->
  (List.length (open_rows s') <= 1)%nat.
Proof.
  intros I H1 W. unfold open_rows in *.
  destruct W as [c|u1 u2 sid Hsel Hbump|u1 u2 Hsel Hex
                 |sid pid ch q Hq H2 Hlt Hdup Hr]; simpl sessions;
    try assumption.
  - unfold select_open_session in Hsel.
    destruct (find (fun r => player_count r =? 1) (sessions s)) as [r|] eqn:Hf;
      [|discriminate].
    simpl in Hsel. injection Hsel as <-.
    destruct (bump_open_row _ _ (inv_pk _ I) Hf) as (b & a & Hs & Hr & Hb & ->).
    rewrite Hs in H1. rewrite filter_app in *. simpl in *.
    rewrite Hb in *. rewrite Hr in H1. simpl in *. lia.
  - unfold select_open_session in Hsel.
    destruct (find (fun r => player_count r =? 1) (sessions s)) as [r|] eqn:Hf;
      [discriminate|].
    rewrite filter_app, (find_filter_nil _ _ Hf). simpl. lia.
Qed.

Lemma open_rows_run_from (cs : list Call) (s : Store) :
  Inv s -> (List.length (open_rows s) <= 1)%nat ->
  (List.length (open_rows (run cs s)) <= 1)%nat.
Proof.
  revert s. induction cs as [|c cs IH]; intros s I H; simpl; [assumption|].
  apply IH.
  - apply (Inv_Write s _ c I). apply step_Write.
  - apply (open_rows_Write s _ c I H). apply step_Write.
Qed.

(** X4. In every database reached from the empty one by calls of the
    four functions, at most one session has [player_count = 1]:
    [join_session] opens a new session only when none is waiting. *)
Theorem at_most_one_waiting (cs : list Call) :
  (List.length (open_rows (run cs empty_db)) <= 1)%nat.
Proof.
  apply open_rows_run_from; [apply Inv_empty|]. simpl. lia.
Qed.

(** ** Joins pair up *)

Lemma find_app_None {A : Type} (f : A -> bool) (l l' : list A) :
  find f l = None -> find f (l ++ l') = find f l'.
Proof.
  induction l as [|a l IH]; simpl; [reflexivity|].
  destruct (f a); [discriminate|exact IH].
Qed.

Lemma select_player_count_new (x uuid : string) (n : Z)
      (rows : list SessionRow) (ms : list MoveRow) :
  select_player_count x (mkStore (rows ++ [mkSession uuid n]) ms) =
  match select_player_count x (mkStore rows ms) with
  | Some p => Some p
  | None => if String.eqb uuid x then Some n else None
  end.
Proof.
  unfold select_player_count. simpl sessions.
  induction rows as [|a l IH]; simpl.
  - destruct (String.eqb uuid x); reflexivity.
  - destruct (String.eqb (id a) x); [reflexivity|exact IH].
Qed.

(** A join that finds nobody waiting opens a session; the next join,
    whatever it draws, fills that session. *)
Lemma join_new_then_fill (s : Store) (a b c d : string) :
  NoDup (map id (sessions s)) ->
  Forall (fun r => check_player_count (player_count r) = true) (sessions s) ->
  select_open_session s = None ->
  session_exists b s = false ->
  join_session a b s =
    (inr (b, a), mkStore (sessions s ++ [mkSession b 1]) (moves s)) /\
  join_session c d (mkStore (sessions s ++ [mkSession b 1]) (moves s)) =
    (inr (b, c), mkStore (sessions s ++ [mkSession b 2]) (moves s)).
Proof.
  intros Hnd Hck Hsel Hfresh. split.
  - rewrite join_session_eq, Hsel. unfold insert_session.
    rewrite Hfresh. reflexivity.
  - rewrite join_session_eq. unfold select_open_session in *. simpl sessions.
    destruct (find (fun r => player_count r =? 1) (sessions s)) eqn:Hf;
      [discriminate|].
    rewrite (find_app_None _ _ _ Hf). simpl.
    assert (Hb : ~ In b (map id (sessions s))).
    { intros Hin. apply session_exists_In in Hin. congruence. }
    rewrite (update_player_count_unique b _ (mkSession b 1));
      [|simpl; rewrite map_app; apply NoDup_snoc; assumption
       |simpl; apply in_elt|reflexivity|reflexivity].
    simpl sessions. simpl moves.
    rewrite map_app. simpl. rewrite (map_bump_other b (sessions s)).
    + replace (bump b (mkSession b 1)) with (mkSession b 2)
        by (unfold bump; simpl; rewrite String.eqb_refl; reflexivity).
      reflexivity.
    + intros r Hr E. apply Hb. rewrite <- E. apply in_map. assumption.
Qed.

(** X5. On a database that satisfies its schema and has no session
    waiting, a join that draws a new session id opens that session and
    [get_state] then reports one player, no move and
    [waiting_for_opponent]; the next join, whatever identifiers it draws,
    is put into that same session, and [get_state] then reports two
    players, no move and [waiting_for_moves]. *)
Theorem second_join_fills_session (s : Store) (a b c d : string) :
  schema_ok s ->
  select_open_session s = None ->
  session_exists b s = false ->
  let s1 := snd (join_session a b s) in
  let s2 := snd (join_session c d s1) in
  fst (join_session a b s) = inr (b, a) /\
  get_state b s1 = (inr (mkState 1 0 waiting_for_opponent), s1) /\
  fst (join_session c d s1) = inr (b, c) /\
  get_state b s2 = (inr (mkState 2 0 waiting_for_moves), s2).
Proof.
  intros Hok Hsel Hfresh. cbv zeta.
  destruct (join_new_then_fill s a b c d (pk_sessions s Hok)
              (ck_sessions s Hok) Hsel Hfresh) as [-> H2].
  simpl fst. simpl snd. rewrite H2. simpl fst. simpl snd.
  pose proof (moves_of_unknown b s (fk_moves s Hok) Hfresh) as Hm.
  assert (Hn : select_player_count b (mkStore (sessions s) (moves s)) = None).
  { apply select_player_count_None. exact Hfresh. }
  repeat split.
  - rewrite get_state_eq, select_player_count_new, Hn, String.eqb_refl.
    unfold count_moves, moves_of in *. simpl moves. rewrite Hm. reflexivity.
  - rewrite get_state_eq, select_player_count_new, Hn, String.eqb_refl.
    unfold count_moves, moves_of in *. simpl moves. rewrite Hm. reflexivity.
Qed.

Lemma second_join_fills_session_witness :
  fst (join_session "p3" "s2" paired_no_moves) = inr ("s2", "p3") /\
  fst (join_session "p4" "s3" (snd (join_session "p3" "s2" paired_no_moves)))
    = inr ("s2", "p4").
Proof.
  destruct (second_join_fills_session paired_no_moves "p3" "s2" "p4" "s3"
              ltac:(solve_schema) eq_refl eq_refl) as (H1 & _ & H2 & _).
  split; [exact H1|exact H2].
Defined.

Lemma pair_ind {A : Type} (P : list A -> Prop) :
  P [] -> (forall x, P [x]) -> (forall x y l, P l -> P (x :: y :: l)) ->
  forall l, P l.
Proof.
  intros H0 H1 H2 l.
  assert (H : P l /\ forall x, P (x :: l)); [|tauto].
  induction l as [|a l [IH1 IH2]]; [auto|].
  split; [apply IH2|]. intros x. apply H2. exact IH1.
Qed.

Lemma joins_from (js : list (string * string)) :
  forall s,
    NoDup (map id (sessions s)) ->
    Forall (fun r => check_player_count (player_count r) = true) (sessions s) ->
    select_open_session s = None ->
    NoDup (map snd js) ->
    (forall j, In j js -> session_exists (snd j) s = false) ->
    sessions (run (map join_call js) s) = sessions s ++ paired js /\
    moves (run (map join_call js) s) = moves s /\
    issued (map join_call js) s = pair_up js.
Proof.
  induction js as [|[a b]|[a b] [c d] rest IH] using pair_ind;
    intros s Hnd Hck Hsel Hjs Hfresh.
  - simpl. rewrite app_nil_r. auto.
  - destruct (join_new_then_fill s a b a b Hnd Hck Hsel
                (Hfresh (a, b) (or_introl eq_refl))) as [H1 _].
    simpl. rewrite H1. simpl. auto.
  - assert (Hb : session_exists b s = false)
      by exact (Hfresh (a, b) (or_introl eq_refl)).
    destruct (join_new_then_fill s a b c d Hnd Hck Hsel Hb) as [H1 H2].
    simpl map. simpl run. simpl issued. rewrite H1. simpl fst. simpl snd.
    rewrite H2. simpl fst. simpl snd.
    set (s2 := mkStore (sessions s ++ [mkSession b 2]) (moves s)).
    simpl in Hjs. inversion Hjs as [|? ? Hb' Hjs']; subst.
    inversion Hjs' as [|? ? _ Hrest]; subst.
    destruct (IH s2) as (E1 & E2 & E3).
    + simpl. rewrite map_app. simpl. apply NoDup_snoc; [assumption|].
      intros Hin. apply session_exists_In in Hin. congruence.
    + simpl. apply Forall_app. split; [assumption|]. repeat constructor.
    + unfold select_open_session in *. simpl sessions.
      destruct (find (fun r => player_count r =? 1) (sessions s)) eqn:Hf;
        [discriminate|].
      rewrite (find_app_None _ _ _ Hf). reflexivity.
    + assumption.
    + intros j Hj. unfold session_exists. simpl sessions.
      rewrite existsb_app. simpl.
      pose proof (Hfresh j (or_intror (or_intror Hj))) as Hj'.
      unfold session_exists in Hj'. rewrite Hj'. simpl.
      destruct (String.eqb_spec b (snd j)) as [E|_]; [|reflexivity].
      exfalso. apply Hb'. right. rewrite E. apply in_map. assumption.
    + fold (run (map join_call rest) s2). rewrite E1, E2, E3.
      simpl. rewrite <- app_assoc. auto.
Qed.

Lemma paired_counts (js : list (string * string)) :
  List.length (filter (fun r => player_count r =? 2) (paired js)) =
    (List.length js / 2)%nat /\
  List.length (filter (fun r => player_count r =? 1) (paired js)) =
    (List.length js mod 2)%nat.
Proof.
  induction js as [|[a b]|[a b] [c d] rest [IH2 IH1]] using pair_ind.
  - split; reflexivity.
  - split; reflexivity.
  - change (paired ((a, b) :: (c, d) :: rest))
      with (mkSession b 2 :: paired rest).
    simpl filter. simpl List.length. rewrite IH2, IH1. split.
    + change (S (S (List.length rest))) with (1 * 2 + List.length rest)%nat.
      rewrite Nat.div_add_l by discriminate. reflexivity.
    + replace (S (S (List.length rest))) with (List.length rest + 1 * 2)%nat
        by lia.
      rewrite Nat.Div0.mod_add. reflexivity.
Qed.

(** X6. Starting from the empty database, a run of N [join_session]
    calls whose session identifiers are pairwise distinct pairs the
    callers in order: the first and second join get the session id the
    first drew, the third and fourth the id the third drew, and so on.
    It leaves N / 2 sessions with two players, N mod 2 sessions with one,
    and no move. *)
Theorem joins_pair_up (js : list (string * string)) :
  NoDup (map snd js) ->
  let s := run (map join_call js) empty_db in
  issued (map join_call js) empty_db = pair_up js /\
  sessions s = paired js /\
  moves s = [] /\
  List.length (full_rows s) = (List.length js / 2)%nat /\
  List.length (open_rows s) = (List.length js mod 2)%nat.
Proof.
  intros Hjs. cbv zeta.
  assert (H : sessions (run (map join_call js) empty_db) =
              sessions empty_db ++ paired js /\
              moves (run (map join_call js) empty_db) = moves empty_db /\
              issued (map join_call js) empty_db = pair_up js).
  { apply joins_from; try assumption; try reflexivity; simpl; constructor. }
  destruct H as (E1 & E2 & E3).
  unfold full_rows, open_rows. rewrite E1. simpl app.
  destruct (paired_counts js) as [C2 C1]. auto.
Qed.

Lemma joins_pair_up_witness :
  issued (map join_call [("p1", "a"); ("p2", "b"); ("p3", "c")]) empty_db =
    [("a", "p1"); ("a", "p2"); ("c", "p3")].
Proof.
  apply (joins_pair_up [("p1", "a"); ("p2", "b"); ("p3", "c")]).
  simpl. repeat constructor; simpl; intuition discriminate.
Defined.

(** ** Moves and what the reads show of them *)

Lemma move_exists_moves_of (sid pid : string) (s : Store) :
  move_exists sid pid s =
  existsb (fun m => String.eqb (player_id m) pid) (moves_of sid s).
Proof.
  unfold move_exists, moves_of.
  induction (moves s) as [|m l IH]; simpl; [reflexivity|].
  destruct (String.eqb (session_id m) sid); simpl; rewrite IH; reflexivity.
Qed.

Lemma select_player_count_moves (x : string) (s : Store) (ms : list MoveRow) :
  select_player_count x (mkStore (sessions s) ms) = select_player_count x s.
Proof. reflexivity. Qed.

(** X7. When [save_move] accepts a move, [get_results] for that session
    returns what it returned before followed by the new move, and
    [get_state] reports the same number of players and one move more;
    for every other session both reads return what they returned
    before. *)
Theorem save_move_then_reads (s : Store) (sid pid ch : string) :
  fst (save_move sid pid ch s) = inr tt ->
  let s' := snd (save_move sid pid ch s) in
  (exists l,
      fst (get_results sid s) = inr l /\
      fst (get_results sid s') = inr (l ++ [mkResult pid ch])) /\
  (exists p n,
      fst (get_state sid s) = inr (mkState p n (decide_phase p n)) /\
      fst (get_state sid s') =
        inr (mkState p (n + 1) (decide_phase p (n + 1)))) /\
  (forall x, x <> sid ->
     fst (get_results x s') = fst (get_results x s) /\
     fst (get_state x s') = fst (get_state x s)).
Proof.
  intros Hok. cbv zeta.
  destruct (save_move_cases sid pid ch s)
    as [(e & E)|(p & Hp & _ & _ & _ & E)]; rewrite E in *; [discriminate|].
  simpl snd. split; [|split].
  - eexists. rewrite !get_results_eq. simpl fst. split; [reflexivity|].
    rewrite moves_of_snoc, String.eqb_refl, map_app. reflexivity.
  - exists p, (count_moves sid s). rewrite !get_state_eq.
    rewrite select_player_count_moves, Hp. simpl fst.
    split; [reflexivity|].
    replace (count_moves sid (mkStore (sessions s) (moves s ++ [mkMove sid pid ch])))
      with (count_moves sid s + 1); [reflexivity|].
    unfold count_moves. rewrite moves_of_snoc, String.eqb_refl, length_app.
    simpl. lia.
  - intros x Hx.
    assert (Hm : moves_of x (mkStore (sessions s) (moves s ++ [mkMove sid pid ch]))
                 = moves_of x s).
    { rewrite moves_of_snoc.
      destruct (String.eqb_spec sid x); [congruence|apply app_nil_r]. }
    rewrite !get_results_eq, !get_state_eq, select_player_count_moves.
    unfold count_moves. rewrite Hm. split; [reflexivity|].
    destruct (select_player_count x s); reflexivity.
Qed.

Lemma save_move_then_reads_witness :
  exists l,
    fst (get_results "s1" one_move_in) = inr l /\
    fst (get_results "s1" (snd (save_move "s1" "p2" "paper" one_move_in))) =
      inr (l ++ [mkResult "p2" "paper"]).
Proof.
  exact (proj1 (save_move_then_reads one_move_in "s1" "p2" "paper" eq_refl)).
Defined.

(** X8. The number of moves [get_state] reports for a session is the
    length of the list [get_results] returns for it, on any database. *)
Theorem state_moves_is_results_length (s : Store) (sid : string) (st : State) :
  fst (get_state sid s) = inr st ->
  exists l,
    fst (get_results sid s) = inr l /\ st_moves st = Z.of_nat (List.length l).
Proof.
  rewrite get_state_eq, get_results_eq.
  destruct (select_player_count sid s) as [p|]; [|discriminate].
  simpl. intros [= <-]. eexists. split; [reflexivity|].
  simpl. unfold count_moves. rewrite length_map. reflexivity.
Qed.

Lemma state_moves_is_results_length_witness :
  exists l,
    fst (get_results "s1" one_move_in) = inr l /\
    st_moves (mkState 2 1 waiting_for_moves) = Z.of_nat (List.length l).
Proof.
  exact (state_moves_is_results_length one_move_in "s1"
           (mkState 2 1 waiting_for_moves) eq_refl).
Defined.

(** X9. A whole round. In a session that two players have joined and
    that has no move yet, a move by one player and then a move by a
    different player are both accepted; [get_state] then reports two
    players, two moves and [finished]; [get_results] returns the two moves
    in the order they were made; and every further [save_move] for the
    session, by anyone, raises "already finished" and changes nothing. *)
Theorem full_round (s : Store) (sid p1 c1 p2 c2 : string) :
  select_player_count sid s = Some 2 ->
  moves_of sid s = [] ->
  p1 <> p2 ->
  let s1 := snd (save_move sid p1 c1 s) in
  let s2 := snd (save_move sid p2 c2 s1) in
  fst (save_move sid p1 c1 s) = inr tt /\
  fst (save_move sid p2 c2 s1) = inr tt /\
  get_state sid s2 = (inr (mkState 2 2 finished), s2) /\
  fst (get_results sid s2) = inr [mkResult p1 c1; mkResult p2 c2] /\
  (forall p3 c3, save_move sid p3 c3 s2 = (inl already_finished, s2)).
Proof.
  intros Hp Hm Hne. cbv zeta.
  assert (Hex : session_exists sid s = true).
  { destruct (session_exists sid s) eqn:E; [reflexivity|].
    apply select_player_count_None in E. congruence. }
  assert (E1 : save_move sid p1 c1 s =
               (inr tt, mkStore (sessions s) (moves s ++ [mkMove sid p1 c1]))).
  { rewrite save_move_eq, Hp. unfold count_moves. rewrite Hm. simpl.
    unfold insert_move. rewrite move_exists_moves_of, Hm. simpl.
    rewrite Hex. reflexivity. }
  rewrite E1. cbn [fst snd].
  set (s1 := mkStore (sessions s) (moves s ++ [mkMove sid p1 c1])).
  assert (Hm1 : moves_of sid s1 = [mkMove sid p1 c1]).
  { unfold s1. rewrite moves_of_snoc, String.eqb_refl, Hm. reflexivity. }
  assert (E2 : save_move sid p2 c2 s1 =
               (inr tt, mkStore (sessions s1) (moves s1 ++ [mkMove sid p2 c2]))).
  { rewrite save_move_eq. unfold s1 at 1.
    rewrite select_player_count_moves, Hp.
    unfold count_moves. rewrite Hm1. simpl.
    unfold insert_move. rewrite move_exists_moves_of, Hm1. simpl.
    destruct (String.eqb_spec p1 p2); [contradiction|]. simpl.
    change (session_exists sid s1) with (session_exists sid s).
    rewrite Hex. reflexivity. }
  rewrite E2. cbn [fst snd].
  set (s2 := mkStore (sessions s1) (moves s1 ++ [mkMove sid p2 c2])).
  assert (Hm2 : moves_of sid s2 = [mkMove sid p1 c1; mkMove sid p2 c2]).
  { unfold s2. rewrite moves_of_snoc, String.eqb_refl, Hm1. reflexivity. }
  assert (Hp2 : select_player_count sid s2 = Some 2) by exact Hp.
  repeat split.
  - rewrite get_state_eq, Hp2. unfold count_moves. rewrite Hm2. reflexivity.
  - rewrite get_results_eq, Hm2. reflexivity.
  - intros p3 c3. rewrite save_move_eq, Hp2. unfold count_moves.
    rewrite Hm2. reflexivity.
Qed.

Lemma full_round_witness :
  fst (get_results "s1"
         (snd (save_move "s1" "p2" "paper"
                 (snd (save_move "s1" "p1" "rock" paired_no_moves))))) =
    inr [mkResult "p1" "rock"; mkResult "p2" "paper"].
Proof.
  refine (proj1 (proj2 (proj2 (proj2
            (full_round paired_no_moves "s1" "p1" "rock" "p2" "paper"
                        eq_refl eq_refl _))))).
  discriminate.
Defined.

(** ** Phases only move forward *)

Lemma run_count_moves (cs : list Call) (s : Store) (x : string) :
  count_moves x s <= count_moves x (run cs s).
Proof.
  destruct (run_extends cs s) as [[ms Hm] _].
  unfold count_moves, moves_of. rewrite Hm, filter_app, length_app. lia.
Qed.

Lemma run_move_exists (cs : list Call) (s : Store) (sid pid : string) :
  move_exists sid pid s = true -> move_exists sid pid (run cs s) = true.
Proof.
  destruct (run_extends cs s) as [[ms Hm] _].
  unfold move_exists. rewrite Hm, existsb_app. intros ->. reflexivity.
Qed.

Lemma Inv_player_count (s : Store) (x : string) (p : Z) :
  Inv s -> select_player_count x s = Some p -> p = 1 \/ p = 2.
Proof.
  intros I Hp. destruct (select_player_count_Some _ _ _ Hp) as (r & Hr & _ & <-).
  pose proof (inv_count _ I) as Hc. rewrite Forall_forall in Hc. auto.
Qed.

Lemma phase_of_finished (sid : string) (s : Store) :
  phase_of sid s = Some finished <->
  exists p, select_player_count sid s = Some p /\ 2 <= p /\
            p <= count_moves sid s.
Proof.
  rewrite phase_of_eq.
  destruct (select_player_count sid s) as [p|]; simpl.
  - destruct (decide_phase_cases p (count_moves sid s))
      as [[H ->]|[(H & H' & ->)|(H & H' & ->)]]; split.
    + discriminate.
    + intros (q & [= <-] & ? & ?). lia.
    + discriminate.
    + intros (q & [= <-] & ? & ?). lia.
    + intros _. exists p. auto.
    + reflexivity.
  - split; [discriminate|]. intros (q & ? & _). discriminate.
Qed.

(** X10. Once [save_move] has accepted a player's move in a session,
    no later [save_move] for the same session and player is accepted,
    whatever calls come in between: it raises "duplicate move" or
    "already finished". *)
Theorem move_is_final (s : Store) (sid pid ch : string) :
  fst (save_move sid pid ch s) = inr tt ->
  forall cs ch',
    let r := fst (save_move sid pid ch' (run cs (snd (save_move sid pid ch s)))) in
    r = inl duplicate_move \/ r = inl already_finished.
Proof.
  intros Hok cs ch'. cbv zeta.
  destruct (save_move_cases sid pid ch s)
    as [(e & E)|(p & Hp & H2 & _ & _ & E)]; rewrite E in *; [discriminate|].
  cbn [snd].
  set (s1 := mkStore (sessions s) (moves s ++ [mkMove sid pid ch])).
  assert (Hdup : move_exists sid pid (run cs s1) = true).
  { apply run_move_exists. unfold move_exists, s1. simpl.
    rewrite existsb_app. simpl. rewrite !String.eqb_refl. simpl.
    apply orb_true_r. }
  destruct (run_monotone cs s1 sid p Hp) as (p' & Hp' & Hle).
  rewrite save_move_eq, Hp'. cbv zeta.
  destruct (decide_phase_cases p' (count_moves sid (run cs s1)))
    as [[H _]|[(_ & _ & ->)|(_ & _ & ->)]]; [lia| |].
  - simpl. unfold insert_move. rewrite Hdup. left. reflexivity.
  - simpl. right. reflexivity.
Qed.

Lemma move_is_final_witness :
  fst (save_move "s1" "p2" "rock"
         (run [] (snd (save_move "s1" "p2" "paper" one_move_in)))) =
    inl duplicate_move \/
  fst (save_move "s1" "p2" "rock"
         (run [] (snd (save_move "s1" "p2" "paper" one_move_in)))) =
    inl already_finished.
Proof.
  exact (move_is_final one_move_in "s1" "p2" "paper" eq_refl [] "rock").
Defined.

Lemma finished_step (c : Call) (s : Store) (sid : string) :
  Inv s -> select_player_count sid s = Some 2 -> 2 <= count_moves sid s ->
  select_player_count sid (step c s) = Some 2 /\
  moves_of sid (step c s) = moves_of sid s.
Proof.
  intros I Hp Hn. pose proof (step_Write c s) as W.
  pose proof (Inv_Write s _ c I W) as I'.
  destruct (Write_monotone s _ c sid 2 W Hp) as (p' & Hp' & Hle).
  destruct (Inv_player_count _ _ _ I' Hp') as [->| ->]; [lia|].
  split; [assumption|].
  remember (step c s) as s' eqn:Hs'. clear Hs' Hp' I'.
  destruct W as [c|u1 u2 x Hsel Hbump|u1 u2 Hsel Hex
                 |sid' pid ch q Hq H2 Hlt Hdup Hr]; try reflexivity.
  rewrite moves_of_snoc.
  destruct (String.eqb_spec sid' sid) as [->|_]; [|apply app_nil_r].
  rewrite Hp in Hq. injection Hq as <-. lia.
Qed.

Lemma finished_run (cs : list Call) (s : Store) (sid : string) :
  Inv s -> select_player_count sid s = Some 2 -> 2 <= count_moves sid s ->
  select_player_count sid (run cs s) = Some 2 /\
  moves_of sid (run cs s) = moves_of sid s.
Proof.
  revert s. induction cs as [|c cs IH]; intros s I Hp Hn; simpl; [auto|].
  destruct (finished_step c s sid I Hp Hn) as [Hp' Hm'].
  destruct (IH (step c s)) as [Hp'' Hm''].
  - apply (Inv_Write s _ c I). apply step_Write.
  - assumption.
  - unfold count_moves in *. rewrite Hm'. assumption.
  - split; [assumption|]. rewrite Hm''. assumption.
Qed.

(** X11. A finished session stays finished. In a database reached from
    the empty one, once [get_state] reports [finished] for a session, then
    after any further calls it still reports [finished], [get_results]
    returns the same list, and every [save_move] for that session raises
    "already finished" and changes nothing. *)
Theorem finished_is_final (cs cs' : list Call) (sid : string) :
  let s := run cs empty_db in
  let s' := run cs' s in
  phase_of sid s = Some finished ->
  phase_of sid s' = Some finished /\
  fst (get_results sid s') = fst (get_results sid s) /\
  (forall pid ch, save_move sid pid ch s' = (inl already_finished, s')).
Proof.
  cbv zeta. intros Hfin. pose proof (Inv_run cs) as I.
  apply phase_of_finished in Hfin. destruct Hfin as (p & Hp & H2 & Hn).
  destruct (Inv_player_count _ _ _ I Hp) as [->| ->]; [lia|].
  destruct (finished_run cs' _ sid I Hp Hn) as [Hp' Hm'].
  assert (Hn' : 2 <= count_moves sid (run cs' (run cs empty_db))).
  { unfold count_moves in *. rewrite Hm'. assumption. }
  assert (Hph : decide_phase 2 (count_moves sid (run cs' (run cs empty_db)))
                = finished).
  { destruct (decide_phase_cases 2 (count_moves sid (run cs' (run cs empty_db))))
      as [[H _]|[(_ & H & _)|(_ & _ & H)]]; [lia|lia|exact H]. }
  split; [|split].
  - apply phase_of_finished. exists 2. auto with zarith.
  - rewrite !get_results_eq. simpl. rewrite Hm'. reflexivity.
  - intros pid ch. rewrite save_move_eq, Hp'. cbv zeta. rewrite Hph.
    reflexivity.
Qed.

Lemma finished_is_final_witness :
  save_move "s1" "p3" "scissors"
    (run [Join "p3" "s2"]
       (run [Join "p1" "s1"; Join "p2" "s9"; SaveMove "s1" "p1" "rock";
             SaveMove "s1" "p2" "paper"] empty_db)) =
  (inl already_finished,
   run [Join "p3" "s2"]
       (run [Join "p1" "s1"; Join "p2" "s9"; SaveMove "s1" "p1" "rock";
             SaveMove "s1" "p2" "paper"] empty_db)).
Proof.
  exact (proj2 (proj2
    (finished_is_final
       [Join "p1" "s1"; Join "p2" "s9"; SaveMove "s1" "p1" "rock";
        SaveMove "s1" "p2" "paper"] [Join "p3" "s2"] "s1" eq_refl))
    "p3" "scissors").
Defined.

Lemma phase_rank_cases (p n : Z) :
  (p < 2 /\ phase_rank (decide_phase p n) = 0%nat) \/
  (2 <= p /\ n < p /\ phase_rank (decide_phase p n) = 1%nat) \/
  (2 <= p /\ p <= n /\ phase_rank (decide_phase p n) = 2%nat).
Proof.
  destruct (decide_phase_cases p n) as [[H ->]|[(H & H' & ->)|(H & H' & ->)]];
    [left|right; left|right; right]; repeat split; assumption.
Qed.

(** X12. Phases never go back. In a database reached from the empty
    one, a session that [get_state] reports in some phase is, after any
    further calls, reported in that phase or a later one in the order
    [waiting_for_opponent], [waiting_for_moves], [finished]. *)
Theorem phase_never_goes_back (cs cs' : list Call) (sid phase : string) :
  let s := run cs empty_db in
  phase_of sid s = Some phase ->
  exists phase',
    phase_of sid (run cs' s) = Some phase' /\
    (phase_rank phase <= phase_rank phase')%nat.
Proof.
  cbv zeta. rewrite !phase_of_eq. intros Hph.
  pose proof (Inv_run cs) as I.
  pose proof (Inv_run_from cs' _ I) as I'.
  destruct (select_player_count sid (run cs empty_db)) as [p|] eqn:Hp;
    [|discriminate].
  simpl in Hph. injection Hph as <-.
  destruct (run_monotone cs' _ sid p Hp) as (p' & Hp' & Hle).
  rewrite Hp'. simpl. eexists. split; [reflexivity|].
  pose proof (run_count_moves cs' (run cs empty_db) sid) as Hn.
  destruct (Inv_player_count _ _ _ I Hp) as [E|E];
    destruct (Inv_player_count _ _ _ I' Hp') as [E'|E'];
    destruct (phase_rank_cases p (count_moves sid (run cs empty_db)))
      as [[? ->]|[(? & ? & ->)|(? & ? & ->)]];
    destruct (phase_rank_cases p'
                (count_moves sid (run cs' (run cs empty_db))))
      as [[? ->]|[(? & ? & ->)|(? & ? & ->)]]; lia.
Qed.

Lemma phase_never_goes_back_witness :
  exists phase',
    phase_of "s1" (run [Join "p2" "s2"] (run [Join "p1" "s1"] empty_db)) =
      Some phase' /\
    (phase_rank waiting_for_opponent <= phase_rank phase')%nat.
Proof.
  exact (phase_never_goes_back [Join "p1" "s1"] [Join "p2" "s2"] "s1"
           waiting_for_opponent eq_refl).
Defined.

(** X13. In a database reached from the empty one, [get_state] can
    return only four dictionaries: one player, no move,
    [waiting_for_opponent]; two players with no move or one move,
    [waiting_for_moves]; two players, two moves, [finished]. *)
Theorem get_state_reachable_values (cs : list Call) (sid : string) (st : State) :
  fst (get_state sid (run cs empty_db)) = inr st ->
  st = mkState 1 0 waiting_for_opponent \/
  st = mkState 2 0 waiting_for_moves \/
  st = mkState 2 1 waiting_for_moves \/
  st = mkState 2 2 finished.
Proof.
  rewrite get_state_eq. pose proof (Inv_run cs) as I.
  destruct (select_player_count sid (run cs empty_db)) as [p|] eqn:Hp;
    [|discriminate].
  simpl. intros [= <-].
  assert (H0 : 0 <= count_moves sid (run cs empty_db))
    by (unfold count_moves; lia).
  destruct (inv_moves _ I sid) as [Hm|(q & Hq & H2 & Hle)].
  - unfold count_moves. rewrite Hm. simpl.
    destruct (Inv_player_count _ _ _ I Hp) as [->| ->]; auto.
  - rewrite Hp in Hq. injection Hq as <-.
    destruct (Inv_player_count _ _ _ I Hp) as [->| ->]; [lia|].
    assert (Hn : count_moves sid (run cs empty_db) = 0 \/
                 count_moves sid (run cs empty_db) = 1 \/
                 count_moves sid (run cs empty_db) = 2) by lia.
    destruct Hn as [->|[->| ->]]; auto.
Qed.

Lemma get_state_reachable_values_witness :
  mkState 2 1 waiting_for_moves = mkState 1 0 waiting_for_opponent \/
  mkState 2 1 waiting_for_moves = mkState 2 0 waiting_for_moves \/
  mkState 2 1 waiting_for_moves = mkState 2 1 waiting_for_moves \/
  mkState 2 1 waiting_for_moves = mkState 2 2 finished.
Proof.
  exact (get_state_reachable_values
           [Join "p1" "s1"; Join "p2" "s2"; SaveMove "s1" "p1" "rock"] "s1"
           (mkState 2 1 waiting_for_moves) eq_refl).
Defined.

(** ** The [with] block *)

Lemma execute_all_spec (stmts : list (Store -> Exn + Store)) (c : Conn) :
  db_file (snd (execute_all stmts c)) = db_file c /\
  match apply_all stmts (view c) with
  | inr w => fst (execute_all stmts c) = inr tt /\
             view (snd (execute_all stmts c)) = w
  | inl e => fst (execute_all stmts c) = inl e
  end.
Proof.
  revert c. induction stmts as [|stmt rest IH]; intros c; simpl.
  - auto.
  - unfold bind, execute.
    destruct (stmt (view c)) as [e|w]; simpl; [auto|].
    specialize (IH (mkConn (db_file c) (Some w))). simpl in IH.
    unfold view at 1 in IH. simpl in IH. exact IH.
Qed.

(** X14. A [with _get_conn()] block is all or nothing. For any
    sequence of INSERT and UPDATE statements executed in one block, each
    statement sees what the ones before it wrote; if all succeed the file
    holds the result of all of them, and if one raises the file is left
    exactly as it was before the block. *)
Theorem with_block_all_or_nothing
        (stmts : list (Store -> Exn + Store)) (s : Store) :
  _get_conn (execute_all stmts) s =
  match apply_all stmts s with
  | inr w => (inr tt, w)
  | inl e => (inl e, s)
  end.
Proof.
  unfold _get_conn.
  destruct (execute_all_spec stmts (mkConn s None)) as [Hf H].
  change (view (mkConn s None)) with s in H. simpl in Hf.
  destruct (execute_all stmts (mkConn s None)) as [r c]. simpl in *.
  destruct (apply_all stmts s) as [e|w].
  - subst r. rewrite Hf. reflexivity.
  - destruct H as [-> ->]. reflexivity.
Qed.

(** * Concurrent joins *)

(** A caller that runs its two steps with nobody in between does what
    [join_session] does. *)
Lemma thread_alone (uuid1 uuid2 : string) (s : Store) :
  run_sched [0; 0]%nat [Ready uuid1 uuid2] s =
  match join_session uuid1 uuid2 s with
  | (inr (sid, player), s') => ([Returned sid player], s')
  | (inl e, s') => ([Raised e], s')
  end.
Proof.
  rewrite join_session_eq. simpl.
  destruct (select_open_session s) as [sid|].
  - destruct (update_player_count sid s); reflexivity.
  - destruct (insert_session uuid2 s); reflexivity.
Qed.














